(** * Verification of the rate limiter of the backend-api template

    The development embeds [app/core/rate_limiting.py] (class [RateLimiter])
    together with the part of the Redis server the class talks to, and
    settles the properties of the admission engine against that embedding.

    Conventions of the embedding.
    - Python [int] is [Z].  A Python [float] is the rational it stands
      for ([Q]).  The burst ceiling [int(requests * burst_multiplier)] is
      computed as the interpreter does, each step rounded to the nearest
      double ([binary64]); magnitudes of 2^1024 and more, where the
      interpreter raises [OverflowError], are outside the embedding.  The
      arithmetic of the token bucket (the Lua script and the quotients
      around it) is on exact rationals: it agrees with the run wherever
      every intermediate value is a double, as for the whole numbers of the
      examples below, and the properties of the token bucket are stated
      where this holds or where rounding cannot change them.
    - A method that mutates [self] or the Redis server is a function of the
      world [W] returning the outcome and the new world; an exception keeps the
      mutations made before it was raised.
    - What the code obtains from outside (whether the redis package could be
      imported, whether [ConnectionPool.from_url] raised, whether the server
      answers, and [int(time.time())]) is the environment [Env] of a call.
      The server reads the same clock as the client. *)

From Stdlib Require Import ZArith QArith Qround Qabs Qminmax String Ascii List Lia Lqa.
From stdpp Require Import gmap strings list fin_maps pretty.

Local Open Scope string_scope.
Local Open Scope Z_scope.

(** ** Python values *)

(** [int(x)] on a float: truncation toward zero. *)
Definition py_int (x : Q) : Z := Z.quot (Qnum x) (Zpos (Qden x)).

(** The nearest integer, a tie going to the even one. *)
Definition round_half_even (x : Q) : Z :=
  let f := Qfloor x in
  match (x - inject_Z f ?= 1 # 2)%Q with
  | Lt => f
  | Gt => f + 1
  | Eq => if Z.even f then f else f + 1
  end.

(** The double nearest to a rational (IEEE 754 binary64, round to nearest,
    ties to even): 53 significant bits, and multiples of 2^-1074 below the
    normal range. *)
Definition binary64 (x : Q) : Q :=
  if Qeq_bool x 0 then 0%Q
  else
    let e0 := Z.log2 (Z.abs (Qnum x)) - Z.log2 (Zpos (Qden x)) - 52 in
    let e1 := if Qle_bool (inject_Z (2 ^ 52)) (Qabs x / 2 ^ e0) then e0 else e0 - 1 in
    let e := e1 `max` (- 1074) in
    (inject_Z (round_half_even (x / 2 ^ e)) * 2 ^ e)%Q.

(** [n * x] for an [int] and a [float]: the int is converted to a double,
    then the product is rounded. *)
Definition py_mul_int_float (n : Z) (x : Q) : Q :=
  binary64 (binary64 (inject_Z n) * x).

(** A dict value that is an [int] on some paths and a [float] on others. *)
Inductive number :=
| PyInt (n : Z)
| PyFloat (x : Q).

Inductive exn :=
| RateLimitExceededException (message : string) (retry_after limit window : Z)
| ZeroDivisionError
| ConnectionError
| ResponseError.

Inductive result (A : Type) :=
| Return (a : A)
| Raise (e : exn).
Arguments Return {A} a.
Arguments Raise {A} e.

(** [a / b] on ints: true division, raising on a zero divisor. *)
Definition py_truediv (a b : Q) : result Q :=
  if Qeq_bool b 0 then Raise ZeroDivisionError else Return (a / b)%Q.

(** [a // b] on ints: floor division, raising on a zero divisor. *)
Definition py_floordiv (a b : Z) : result Z :=
  if decide (b = 0) then Raise ZeroDivisionError else Return (a `div` b).

(** ** Configuration *)

Inductive RateLimitStrategy :=
| FIXED_WINDOW
| SLIDING_WINDOW
| TOKEN_BUCKET.

Definition strategy_value (s : RateLimitStrategy) : string :=
  match s with
  | FIXED_WINDOW => "fixed_window"
  | SLIDING_WINDOW => "sliding_window"
  | TOKEN_BUCKET => "token_bucket"
  end.

(** [class RateLimit] (lines 27-32). *)
Record RateLimit := mkRateLimit {
  requests : Z;
  window : Z;  (* seconds *)
  strategy : RateLimitStrategy
}.

(** The constructor the [@dataclass] decorator generates: it stores its
    arguments, [strategy] defaulting to [SLIDING_WINDOW]. There is no
    [__post_init__]. *)
Definition RateLimit_init (requests window : Z) (strategy : option RateLimitStrategy)
  : result RateLimit :=
  Return (mkRateLimit requests window (default SLIDING_WINDOW strategy)).

(** ** The Redis server

    One key space; a key holds a sorted set (member to score), a string that
    is an integer, or the hash the token-bucket script writes, and may carry
    an expiry time. *)

Inductive rvalue :=
| VZSet (zs : gmap string Z)
| VInt (n : Z)
| VHash (tokens : Q) (last_refill : Z).

Record entry := Entry {
  value : rvalue;
  expire_at : option Z
}.

(** An entry survives until its expiry time. *)
Definition alive (now : Z) (e : entry) : option entry :=
  match expire_at e with
  | Some t => if decide (now < t) then Some e else None
  | None => Some e
  end.

(** Keys whose expiry time has passed are gone when the server is next
    accessed. *)
Definition live (now : Z) (db : gmap string entry) : gmap string entry :=
  omap (alive now) db.

Inductive command :=
| ZREMRANGEBYSCORE (key : string) (lo hi : Z)
| ZCARD (key : string)
| ZADD (key member : string) (score : Z)
| EXPIRE (key : string) (seconds : Z)
| GET (key : string)
| INCRBY (key : string) (amount : Z)
| EVAL_token_bucket (key : string) (capacity refill_rate cost : Q) (current_time : Z).

Inductive reply :=
| RInteger (n : Z)
| RBulk (s : string)
| RIntegers (ns : list Z)
| RNil
| RError.

(** A member whose score lies in the closed range. *)
Definition in_range (lo hi : Z) (kv : string * Z) : Prop := lo ≤ kv.2 ≤ hi.

(** The integers a string value can hold. *)
Definition int64_ok (n : Z) : bool :=
  (- 2 ^ 63 <=? n) && (n <? 2 ^ 63).

(** The Lua script of [_token_bucket_redis], which [EVAL] runs atomically
    with [KEYS[1] = key] and [ARGV = capacity, refill_rate, cost,
    current_time]. [HMGET] of a missing key gives [false] twice, and
    [tonumber(false)] is [nil], so a fresh bucket is full and was last
    refilled now. The reply [{can_consume and 1 or 0, tokens}] reaches the
    client as two integers: the server converts a Lua number of a reply to
    an integer by truncation. The numbers of the script are exact
    rationals here, where Lua has doubles and the hash keeps 14 significant
    digits: the two agree on whole numbers below 2^53 and on every value
    that needs no rounding. *)
Definition token_bucket_script (now : Z) (key : string)
    (capacity refill_rate cost : Q) (current_time : Z)
    (db : gmap string entry) : reply * gmap string entry :=
  let run (bucket : option (Q * Z)) :=
    let tokens := from_option fst capacity bucket in
    let last_refill := from_option snd current_time bucket in
    (* Calculate tokens to add based on time passed *)
    let time_passed := current_time - last_refill in
    let tokens_to_add := (inject_Z time_passed * refill_rate)%Q in
    let tokens := Qmin capacity (tokens + tokens_to_add)%Q in
    let can_consume := Qle_bool cost tokens in
    let tokens := if can_consume then (tokens - cost)%Q else tokens in
    (* Update bucket state; expire after 1 hour of inactivity *)
    (RIntegers [if can_consume then 1 else 0; py_int tokens],
     <[key := Entry (VHash tokens current_time) (Some (now + 3600))]> db) in
  match db !! key with
  | None => run None
  | Some (Entry (VHash tokens last_refill) _) => run (Some (tokens, last_refill))
  | Some _ => (RError, db)
  end.

(** One command on a server whose expired keys are already gone. An
    emptied sorted set is removed with its key, and [EXPIRE] with a
    non-positive time deletes the key at once. *)
Definition exec (now : Z) (c : command) (db : gmap string entry)
  : reply * gmap string entry :=
  match c with
  | ZREMRANGEBYSCORE key lo hi =>
      match db !! key with
      | None => (RInteger 0, db)
      | Some (Entry (VZSet zs) ex) =>
          let zs' := filter (λ kv, ¬ in_range lo hi kv) zs in
          (RInteger (Z.of_nat (size zs) - Z.of_nat (size zs')),
           if decide (zs' = ∅) then delete key db
           else <[key := Entry (VZSet zs') ex]> db)
      | Some _ => (RError, db)
      end
  | ZCARD key =>
      match db !! key with
      | None => (RInteger 0, db)
      | Some (Entry (VZSet zs) _) => (RInteger (Z.of_nat (size zs)), db)
      | Some _ => (RError, db)
      end
  | ZADD key member score =>
      match db !! key with
      | None => (RInteger 1, <[key := Entry (VZSet {[member := score]}) None]> db)
      | Some (Entry (VZSet zs) ex) =>
          (RInteger (match zs !! member with Some _ => 0 | None => 1 end),
           <[key := Entry (VZSet (<[member := score]> zs)) ex]> db)
      | Some _ => (RError, db)
      end
  | EXPIRE key seconds =>
      match db !! key with
      | None => (RInteger 0, db)
      | Some (Entry v _) =>
          (RInteger 1,
           if decide (seconds ≤ 0) then delete key db
           else <[key := Entry v (Some (now + seconds))]> db)
      end
  | GET key =>
      match db !! key with
      | None => (RNil, db)
      | Some (Entry (VInt n) _) => (RBulk (pretty n), db)
      | Some _ => (RError, db)
      end
  | INCRBY key amount =>
      match db !! key with
      | None =>
          if int64_ok amount
          then (RInteger amount, <[key := Entry (VInt amount) None]> db)
          else (RError, db)
      | Some (Entry (VInt n) ex) =>
          if int64_ok amount && int64_ok (n + amount)
          then (RInteger (n + amount), <[key := Entry (VInt (n + amount)) ex]> db)
          else (RError, db)
      | Some _ => (RError, db)
      end
  | EVAL_token_bucket key capacity refill_rate cost current_time =>
      token_bucket_script now key capacity refill_rate cost current_time db
  end.

Fixpoint run_commands (now : Z) (cmds : list command) (db : gmap string entry)
  : list reply * gmap string entry :=
  match cmds with
  | [] => ([], db)
  | c :: cs =>
      let '(r, db1) := exec now c db in
      let '(rs, db2) := run_commands now cs db1 in
      (r :: rs, db2)
  end.

Definition is_error (r : reply) : bool :=
  match r with RError => true | _ => false end.

(** An integer reply as a Python [int]. *)
Definition reply_int (r : reply) : Z :=
  match r with RInteger n => n | _ => 0 end.

(** [result[i]] of a reply that is a list of integers. *)
Definition reply_nth (i : nat) (r : reply) : Z :=
  match r with RIntegers ns => nth i ns 0 | _ => 0 end.

(** ** The limiter object and its world *)

Module UserData.
Record t := mk {
  requests : list Z;
  last_access : Z
}.
End UserData.

(** The attributes [RateLimiter.__init__] sets (lines 48-63). *)
Record RateLimiter := mkRateLimiter {
  redis_url : string;
  default_limit : RateLimit;
  enable_burst : bool;
  burst_multiplier : Q;  (* a float, by its value *)
  _redis_pool : bool;  (* [true] once the connection pool exists *)
  _memory_store : gmap string UserData.t;
  _cleanup_interval : Z
}.

Definition RateLimiter_init (redis_url : string) (default_limit : RateLimit)
    (enable_burst : bool) (burst_multiplier : Q) : RateLimiter :=
  mkRateLimiter redis_url default_limit enable_burst burst_multiplier false ∅ 60.

(** [RateLimiter()] with every default. *)
Definition RateLimiter_default : RateLimiter :=
  RateLimiter_init "redis://localhost:6379/0" (mkRateLimit 100 60 SLIDING_WINDOW)
    true (3 # 2).

Definition set_redis_pool (self : RateLimiter) : RateLimiter :=
  mkRateLimiter (redis_url self) (default_limit self) (enable_burst self)
    (burst_multiplier self) true (_memory_store self) (_cleanup_interval self).

Definition set_memory_store (self : RateLimiter) (m : gmap string UserData.t)
  : RateLimiter :=
  mkRateLimiter (redis_url self) (default_limit self) (enable_burst self)
    (burst_multiplier self) (_redis_pool self) m (_cleanup_interval self).

Record Env := mkEnv {
  redis_installed : bool;  (* [import redis.asyncio] succeeded *)
  from_url_ok : bool;      (* [ConnectionPool.from_url] does not raise *)
  server_up : bool;        (* the server answers the commands sent to it *)
  clock : Z                (* [int(time.time())] *)
}.

Record W := mkW {
  self : RateLimiter;
  server : gmap string entry
}.

Module RateInfo.
Record t := mk {
  exceeded : bool;
  limit : Z;
  remaining : Z;
  reset_time : number;
  retry_after : Z;
  strategy : string
}.
End RateInfo.

Module StatusInfo.
Record t := mk {
  limit : Z;
  remaining : Z;
  reset_time : Z;
  current_requests : Z
}.
End StatusInfo.

(** [pipe.execute()] of a [transaction=True] pipeline: the queued commands
    run in order without interleaving; a command that fails does not stop
    the others, and the client raises when a reply is an error. An
    unreachable server raises a connection error and runs nothing. *)
Definition pipeline_execute (env : Env) (cmds : list command)
    (db : gmap string entry) : result (list reply) * gmap string entry :=
  if server_up env then
    let '(rs, db') := run_commands (clock env) cmds (live (clock env) db) in
    (if existsb is_error rs then Raise ResponseError else Return rs, db')
  else (Raise ConnectionError, db).

(** A command sent on its own, as [redis_client.eval(...)] is. *)
Definition execute_command (env : Env) (c : command) (db : gmap string entry)
  : result reply * gmap string entry :=
  if server_up env then
    let '(r, db') := exec (clock env) c (live (clock env) db) in
    (if is_error r then Raise ResponseError else Return r, db')
  else (Raise ConnectionError, db).

(** [_get_redis] (lines 65-82): [None] without the package or when the pool
    cannot be built, else a client on the cached pool. Building the pool
    does not connect. *)
Definition _get_redis (env : Env) (self : RateLimiter) : bool * RateLimiter :=
  if negb (redis_installed env) then (false, self)
  else if _redis_pool self then (true, self)
  else if from_url_ok env then (true, set_redis_pool self)
  else (false, self).

(** The keys of the three strategies. *)
Definition sliding_key (identifier : string) : string :=
  "rate_limit:sliding:" +:+ identifier.

Definition fixed_key (identifier : string) (window_start : Z) : string :=
  "rate_limit:fixed:" +:+ identifier +:+ ":" +:+ pretty window_start.

Definition bucket_key (identifier : string) : string :=
  "rate_limit:bucket:" +:+ identifier.

(** [_sliding_window_redis] (lines 155-201). *)
Definition _sliding_window_redis (self : RateLimiter) (env : Env)
    (identifier : string) (limit : RateLimit) (cost current_time : Z)
    (db : gmap string entry) : result RateInfo.t * gmap string entry :=
  let key := sliding_key identifier in
  let window_start := current_time - window limit in
  match pipeline_execute env
          [ ZREMRANGEBYSCORE key 0 window_start;
            ZCARD key;
            ZADD key (pretty current_time +:+ ":" +:+ pretty cost) current_time;
            EXPIRE key (window limit + 60) ] db with
  | (Raise e, db') => (Raise e, db')
  | (Return results, db') =>
      let current_requests := reply_int (nth 1 results RNil) in
      let current_requests := current_requests + cost in
      let max_requests :=
        if enable_burst self
        then py_int (py_mul_int_float (requests limit) (burst_multiplier self))
        else requests limit in
      let exceeded := bool_decide (current_requests > max_requests) in
      let remaining := 0 `max` (requests limit - current_requests) in
      let retry_after := if exceeded then window limit else 0 in
      (Return (RateInfo.mk exceeded (requests limit) remaining
                 (PyInt (current_time + window limit)) retry_after
                 (strategy_value (strategy limit))), db')
  end.

(** [_fixed_window_redis] (lines 203-235). *)
Definition _fixed_window_redis (self : RateLimiter) (env : Env)
    (identifier : string) (limit : RateLimit) (cost current_time : Z)
    (db : gmap string entry) : result RateInfo.t * gmap string entry :=
  match py_floordiv current_time (window limit) with
  | Raise e => (Raise e, db)
  | Return q =>
      let window_start := q * window limit in
      let key := fixed_key identifier window_start in
      match pipeline_execute env
              [ GET key; INCRBY key cost; EXPIRE key (window limit + 60) ] db with
      | (Raise e, db') => (Raise e, db')
      | (Return results, db') =>
          let current_requests := reply_int (nth 1 results RNil) in
          let exceeded := bool_decide (current_requests > requests limit) in
          let remaining := 0 `max` (requests limit - current_requests) in
          let reset_time := window_start + window limit in
          let retry_after := if exceeded then reset_time - current_time else 0 in
          (Return (RateInfo.mk exceeded (requests limit) remaining
                     (PyInt reset_time) retry_after
                     (strategy_value (strategy limit))), db')
      end
  end.

(** [_token_bucket_redis] (lines 237-304), around the script above. The
    refill rate and the quotients are exact rationals, as in the script. *)
Definition _token_bucket_redis (self : RateLimiter) (env : Env)
    (identifier : string) (limit : RateLimit) (cost current_time : Z)
    (db : gmap string entry) : result RateInfo.t * gmap string entry :=
  let key := bucket_key identifier in
  match py_truediv (inject_Z (requests limit)) (inject_Z (window limit)) with
  | Raise e => (Raise e, db)
  | Return refill_rate =>  (* tokens per second *)
      match execute_command env
              (EVAL_token_bucket key (inject_Z (requests limit)) refill_rate
                 (inject_Z cost) current_time) db with
      | (Raise e, db') => (Raise e, db')
      | (Return result, db') =>
          let can_consume := negb (reply_nth 0 result =? 0) in
          let remaining_tokens := reply_nth 1 result in
          let retry_after :=
            if can_consume then Return 0
            else
              (* Calculate time needed to get enough tokens *)
              match py_truediv (inject_Z (cost - remaining_tokens)) refill_rate with
              | Raise e => Raise e
              | Return t => Return (py_int t + 1)
              end in
          match retry_after with
          | Raise e => (Raise e, db')
          | Return retry_after =>
              match py_truediv (inject_Z (requests limit)) refill_rate with
              | Raise e => (Raise e, db')
              | Return full =>
                  (Return (RateInfo.mk (negb can_consume) (requests limit)
                             remaining_tokens
                             (PyFloat (inject_Z current_time + full)%Q)
                             retry_after (strategy_value (strategy limit))), db')
              end
          end
      end
  end.

(** [_check_redis_rate_limit] (lines 132-153). *)
Definition _check_redis_rate_limit (self : RateLimiter) (env : Env)
    (identifier : string) (limit : RateLimit) (cost : Z)
    (db : gmap string entry) : result RateInfo.t * gmap string entry :=
  let current_time := clock env in
  match strategy limit with
  | SLIDING_WINDOW =>
      _sliding_window_redis self env identifier limit cost current_time db
  | FIXED_WINDOW =>
      _fixed_window_redis self env identifier limit cost current_time db
  | TOKEN_BUCKET =>
      _token_bucket_redis self env identifier limit cost current_time db
  end.

(** ** The in-process fallback *)

(** [_cleanup_memory_store] (lines 354-363). *)
Definition _cleanup_memory_store (self : RateLimiter) (current_time : Z)
  : RateLimiter :=
  let cutoff_time := current_time - 3600 in  (* 1 hour *)
  set_memory_store self
    (filter (λ kv, ¬ (UserData.last_access kv.2 < cutoff_time)) (_memory_store self)).

(** [_check_memory_rate_limit] (lines 306-352). The record of the
    identifier is created when missing and written back with the pruned list;
    the current time is appended [cost] times only when not exceeded. *)
Definition _check_memory_rate_limit (self : RateLimiter) (env : Env)
    (identifier : string) (limit : RateLimit) (cost : Z)
  : RateInfo.t * RateLimiter :=
  let current_time := clock env in
  (* Cleanup old entries periodically *)
  let self :=
    if bool_decide (Z.of_nat (size (_memory_store self)) > 1000)
    then _cleanup_memory_store self current_time else self in
  let user_data :=
    default (UserData.mk [] current_time) (_memory_store self !! identifier) in
  (* Remove old requests *)
  let window_start := current_time - window limit in
  let reqs := filter (λ req, window_start ≤ req) (UserData.requests user_data) in
  (* Count current requests *)
  let current_requests := Z.of_nat (length reqs) + cost in
  let exceeded := bool_decide (current_requests > requests limit) in
  let remaining := 0 `max` (requests limit - current_requests) in
  let reqs :=
    if exceeded then reqs
    else (reqs ++ replicate (Z.to_nat cost) current_time)%list in  (* Add current request(s) *)
  (RateInfo.mk exceeded (requests limit) remaining
     (PyInt (current_time + window limit))
     (if exceeded then window limit else 0) "memory_fallback",
   set_memory_store self
     (<[identifier := UserData.mk reqs current_time]> (_memory_store self))).

(** ** The public methods *)

(** [check_rate_limit] (lines 84-130); [cost] defaults to 1 in the source. *)
Definition check_rate_limit (env : Env) (w : W) (identifier : string)
    (limit : option RateLimit) (cost : Z) : result RateInfo.t * W :=
  let limit := default (default_limit (self w)) limit in
  let '(redis_client, self1) := _get_redis env (self w) in
  let '(rate_info, w1) :=
    if redis_client then
      let '(r, db) := _check_redis_rate_limit self1 env identifier limit cost (server w) in
      (r, mkW self1 db)
    else
      let '(r, self2) := _check_memory_rate_limit self1 env identifier limit cost in
      (Return r, mkW self2 (server w)) in
  match rate_info with
  | Raise e => (Raise e, w1)
  | Return rate_info =>
      if RateInfo.exceeded rate_info then
        (Raise (RateLimitExceededException
                  ("Rate limit exceeded for " +:+ identifier)
                  (RateInfo.retry_after rate_info) (requests limit) (window limit)),
         w1)
      else (Return rate_info, w1)
  end.

(** [get_rate_limit_info] (lines 365-430), the peek of the engine. *)
Definition get_rate_limit_info (env : Env) (w : W) (identifier : string)
    (limit : option RateLimit) : result StatusInfo.t * W :=
  let limit := default (default_limit (self w)) limit in
  let '(redis_client, self1) := _get_redis env (self w) in
  let current_time := clock env in
  if redis_client then
    let key := sliding_key identifier in
    let window_start := current_time - window limit in
    (* Remove old entries and count current requests *)
    match pipeline_execute env
            [ ZREMRANGEBYSCORE key 0 window_start; ZCARD key ] (server w) with
    | (Raise e, db) => (Raise e, mkW self1 db)
    | (Return results, db) =>
        let current_requests := reply_int (nth 1 results RNil) in
        let remaining := 0 `max` (requests limit - current_requests) in
        (Return (StatusInfo.mk (requests limit) remaining
                   (current_time + window limit) current_requests),
         mkW self1 db)
    end
  else
    (* Memory fallback *)
    match _memory_store self1 !! identifier with
    | None =>
        (Return (StatusInfo.mk (requests limit) (requests limit)
                   (current_time + window limit) 0), mkW self1 (server w))
    | Some user_data =>
        let window_start := current_time - window limit in
        let current_requests :=
          Z.of_nat (length (filter (λ req, window_start ≤ req)
                              (UserData.requests user_data))) in
        let remaining := 0 `max` (requests limit - current_requests) in
        (Return (StatusInfo.mk (requests limit) remaining
                   (current_time + window limit) current_requests),
         mkW self1 (server w))
    end.

(** ** Glob patterns of [KEYS]

    The pattern language of the server: [*] any sequence, [?] any
    character, [[...]] a class of characters and ranges ([^] negates, a
    class left open ends with the pattern), and a backslash taking the
    next character verbatim. *)

Inductive glob_token :=
| GStar
| GAny
| GClass (negated : bool) (ranges : list (ascii * ascii))
| GLit (c : ascii).

Inductive glob_mode :=
| GTop
| GIn (negated : bool) (ranges : list (ascii * ascii)).

Definition glob_range (a b : ascii) : ascii * ascii :=
  if (nat_of_ascii b <? nat_of_ascii a)%nat then (b, a) else (a, b).

Fixpoint glob_parse (m : glob_mode) (p : list ascii) : list glob_token :=
  match p with
  | [] => match m with GTop => [] | GIn neg rs => [GClass neg rs] end
  | c :: p1 =>
      match m with
      | GTop =>
          if Ascii.eqb c "*" then GStar :: glob_parse GTop p1
          else if Ascii.eqb c "?" then GAny :: glob_parse GTop p1
          else if Ascii.eqb c "[" then
            match p1 with
            | c2 :: p2 =>
                if Ascii.eqb c2 "^" then glob_parse (GIn true []) p2
                else glob_parse (GIn false []) p1
            | [] => glob_parse (GIn false []) p1
            end
          else if Ascii.eqb c "\" then
            match p1 with
            | c2 :: p2 => GLit c2 :: glob_parse GTop p2
            | [] => [GLit c]
            end
          else GLit c :: glob_parse GTop p1
      | GIn neg rs =>
          match p1 with
          | c2 :: p2 =>
              if Ascii.eqb c "\" then glob_parse (GIn neg (rs ++ [(c2, c2)])%list) p2
              else if Ascii.eqb c "]" then GClass neg rs :: glob_parse GTop p1
              else
                match p2 with
                | c3 :: p3 =>
                    if Ascii.eqb c2 "-"
                    then glob_parse (GIn neg (rs ++ [glob_range c c3])%list) p3
                    else glob_parse (GIn neg (rs ++ [(c, c)])%list) p1
                | [] => glob_parse (GIn neg (rs ++ [(c, c)])%list) p1
                end
          | [] =>
              if Ascii.eqb c "]" then GClass neg rs :: glob_parse GTop p1
              else glob_parse (GIn neg (rs ++ [(c, c)])%list) p1
          end
      end
  end.

Definition glob_in_class (rs : list (ascii * ascii)) (c : ascii) : bool :=
  existsb (λ r, (nat_of_ascii r.1 <=? nat_of_ascii c)%nat
                && (nat_of_ascii c <=? nat_of_ascii r.2)%nat) rs.

Definition glob_char (t : glob_token) (c : ascii) : bool :=
  match t with
  | GStar | GAny => true
  | GClass neg rs => xorb neg (glob_in_class rs c)
  | GLit a => Ascii.eqb a c
  end.

Fixpoint glob_tokens (ts : list glob_token) : list ascii → bool :=
  match ts with
  | [] => λ s, match s with [] => true | _ => false end
  | GStar :: ts1 =>
      let rest := glob_tokens ts1 in
      fix star (s : list ascii) : bool :=
        rest s || match s with [] => false | _ :: s1 => star s1 end
  | t :: ts1 =>
      λ s, match s with
           | [] => false
           | c :: s1 => glob_char t c && glob_tokens ts1 s1
           end
  end.

Definition glob_match (pattern key : string) : bool :=
  glob_tokens (glob_parse GTop (list_ascii_of_string pattern))
    (list_ascii_of_string key).

(** [redis_client.keys(pattern)] *)
Definition redis_keys (env : Env) (pattern : string) (db : gmap string entry)
  : result (list string) * gmap string entry :=
  if server_up env then
    let db0 := live (clock env) db in
    (Return (filter (λ k, glob_match pattern k = true) (map_to_list db0).*1), db0)
  else (Raise ConnectionError, db).

(** [redis_client.delete( *keys )] *)
Definition redis_delete (env : Env) (keys : list string) (db : gmap string entry)
  : result Z * gmap string entry :=
  if server_up env then
    let db0 := live (clock env) db in
    (Return (Z.of_nat (length (filter (λ k, is_Some (db0 !! k)) keys))),
     foldr delete db0 keys)
  else (Raise ConnectionError, db).

(** [reset_rate_limit] (lines 432-454). *)
Definition reset_rate_limit (env : Env) (w : W) (identifier : string)
  : result bool * W :=
  let '(redis_client, self1) := _get_redis env (self w) in
  if redis_client then
    (* Remove all rate limit keys for this identifier *)
    match redis_keys env ("rate_limit:*:" +:+ identifier +:+ "*") (server w) with
    | (Raise e, db) => (Raise e, mkW self1 db)
    | (Return keys, db) =>
        match keys with
        | [] => (Return true, mkW self1 db)
        | _ =>
            match redis_delete env keys db with
            | (Raise e, db') => (Raise e, mkW self1 db')
            | (Return _, db') => (Return true, mkW self1 db')
            end
        end
    end
  else
    (* Memory fallback *)
    (Return true, mkW (set_memory_store self1 (delete identifier (_memory_store self1)))
                    (server w)).

(** ** The exception a denial raises

    [app/core/exceptions.py]: the object the caller of [check_rate_limit]
    catches. *)

(** [class BaseAPIException] of [exceptions.py] (lines 9-29): what its
    [__init__] stores. Values of [details] are the integers this engine
    puts there. *)
Module APIException.
Record t := mk {
  message : string;
  status_code : Z;
  error_code : string;
  details : gmap string Z;
  headers : gmap string string
}.
End APIException.

(** [x or y] on an optional string: [None] and the empty string are falsy. *)
Definition str_or (x : option string) (y : string) : string :=
  match x with
  | Some (String c s) => String c s
  | _ => y
  end.

(** [if x:] on an optional int: [None] and [0] are falsy. *)
Definition truthy (x : option Z) : option Z :=
  match x with
  | Some n => if decide (n = 0) then None else Some n
  | None => None
  end.

Definition BaseAPIException_init (class_name message : string) (status_code : Z)
    (error_code : option string) (details : option (gmap string Z))
    (headers : option (gmap string string)) : APIException.t :=
  APIException.mk message status_code (str_or error_code class_name)
    (default ∅ details) (default ∅ headers).

(** [RateLimitExceededException.__init__] (lines 180-213). *)
Definition RateLimitExceededException_init (message : string)
    (retry_after limit window : option Z) (details : option (gmap string Z))
  : APIException.t :=
  let details := default ∅ details in
  let details :=
    match truthy limit with
    | Some limit => <["limit" := limit]> details
    | None => details
    end in
  let details :=
    match truthy window with
    | Some window => <["window_seconds" := window]> details
    | None => details
    end in
  let headers : gmap string string := ∅ in
  let '(headers, details) :=
    match truthy retry_after with
    | Some retry_after =>
        (<["Retry-After" := pretty retry_after]> headers,
         <["retry_after_seconds" := retry_after]> details)
    | None => (headers, details)
    end in
  BaseAPIException_init "RateLimitExceededException" message 429
    (Some "RATE_LIMIT_EXCEEDED") (Some details) (Some headers).

(** ** The limit the middleware picks for a path

    [app/middleware.py], [RateLimitMiddleware]. *)

(** [sub in s] on strings. *)
Fixpoint contains (sub s : string) : bool :=
  String.prefix sub s
  || match s with
     | EmptyString => false
     | String _ s1 => contains sub s1
     end.

(** [s.endswith(suffix)]. *)
Fixpoint endswith (s suffix : string) : bool :=
  String.eqb s suffix
  || match s with
     | EmptyString => false
     | String _ s1 => endswith s1 suffix
     end.

(** [RateLimitMiddleware.RATE_LIMITS] of [middleware.py] (lines 160-167), in
    insertion order. *)
Definition RATE_LIMITS : list (string * RateLimit) :=
  [ ("/auth/login", mkRateLimit 5 300 SLIDING_WINDOW);
    ("/auth/register", mkRateLimit 3 3600 SLIDING_WINDOW);
    ("/auth/password-reset", mkRateLimit 3 3600 SLIDING_WINDOW);
    ("/posts", mkRateLimit 10 3600 SLIDING_WINDOW);
    ("/comments", mkRateLimit 30 3600 SLIDING_WINDOW);
    ("default", mkRateLimit 100 60 SLIDING_WINDOW) ].

(** [d[key]]; [None] stands for [KeyError]. *)
Fixpoint getitem (d : list (string * RateLimit)) (key : string) : option RateLimit :=
  match d with
  | [] => None
  | (k, v) :: d1 => if String.eqb k key then Some v else getitem d1 key
  end.

(** The loop over [RATE_LIMITS.items()]. *)
Fixpoint first_pattern (path : string) (items : list (string * RateLimit))
  : option RateLimit :=
  match items with
  | [] => None
  | (pattern, limit) :: items1 =>
      if String.eqb pattern "default" then first_pattern path items1
      else if String.prefix pattern path then Some limit
      else first_pattern path items1
  end.

(** [get_rate_limit_for_path] (lines 229-246). *)
Definition get_rate_limit_for_path (path method : string) : option RateLimit :=
  match first_pattern path RATE_LIMITS with
  | Some limit => Some limit
  | None =>
      if String.eqb method "POST" then
        if contains "/posts/" path && endswith path "/comments"
        then getitem RATE_LIMITS "/comments"
        else if contains "/posts" path then getitem RATE_LIMITS "/posts"
        else getitem RATE_LIMITS "default"
      else getitem RATE_LIMITS "default"
  end.

(** ** Observing a run *)

(** One call of [check_rate_limit]: environment, identifier, limit, cost. *)
Definition call : Type := Env * string * option RateLimit * Z.

Fixpoint check_calls (w : W) (cs : list call) : list (result RateInfo.t) * W :=
  match cs with
  | [] => ([], w)
  | (env, identifier, limit, cost) :: cs1 =>
      let '(r, w1) := check_rate_limit env w identifier limit cost in
      let '(rs, w2) := check_calls w1 cs1 in
      (r :: rs, w2)
  end.

(** The caller is handed a decision with [exceeded = false]. *)
Definition allowed (r : result RateInfo.t) : Prop :=
  ∃ info, r = Return info ∧ RateInfo.exceeded info = false.

Definition allowed_with (remaining : Z) (r : result RateInfo.t) : Prop :=
  ∃ info, r = Return info ∧ RateInfo.exceeded info = false
          ∧ RateInfo.remaining info = remaining.

(** The decision was [exceeded = true]: the caller sees the exception that
    carries [retry_after]. *)
Definition denied (r : result RateInfo.t) : Prop :=
  ∃ msg retry_after limit window,
    r = Raise (RateLimitExceededException msg retry_after limit window).

Definition denied_with (retry_after : Z) (r : result RateInfo.t) : Prop :=
  ∃ msg limit window,
    r = Raise (RateLimitExceededException msg retry_after limit window).

(** A fresh limiter with every default, in front of an empty server. *)
Definition fresh_world : W := mkW RateLimiter_default ∅.

(** The store answers. *)
Definition remote (t : Z) : Env := mkEnv true true true t.

(** The redis package is missing: every call takes the in-process path. *)
Definition fallback (t : Z) : Env := mkEnv false true true t.

(** The client exists but the server does not answer. *)
Definition outage (t : Z) : Env := mkEnv true true false t.

(** The sliding-window scenario: six checks at t=0 and one at t=61. *)
Definition sliding_scenario_calls (at_time : Z → Env) : list call :=
  let c t := (at_time t, "user_1", Some (mkRateLimit 5 60 SLIDING_WINDOW), 1) in
  [c 0; c 0; c 0; c 0; c 0; c 0; c 61].

Definition sliding_scenario (at_time : Z → Env) : Prop :=
  match (check_calls fresh_world (sliding_scenario_calls at_time)).1 with
  | [r1; r2; r3; r4; r5; r6; r7] =>
      allowed_with 4 r1 ∧ allowed_with 3 r2 ∧ allowed_with 2 r3
      ∧ allowed_with 1 r4 ∧ allowed_with 0 r5
      ∧ denied_with 60 r6 ∧ allowed r7
  | _ => False
  end.

(** ** Vocabulary of the properties *)

(** The bucket of an identifier, when the server holds one. *)
Definition stored_bucket (db : gmap string entry) (identifier : string)
  : option (Q * Z) :=
  match db !! bucket_key identifier with
  | Some (Entry (VHash tokens last_refill) _) => Some (tokens, last_refill)
  | _ => None
  end.


(** The stored timestamps of an identifier in the fallback store. *)
Definition memory_requests (self : RateLimiter) (identifier : string) : list Z :=
  default [] (UserData.requests <$> _memory_store self !! identifier).

(** The score of a member of the sorted set at a key. *)
Definition zscore (db : gmap string entry) (key member : string) : option Z :=
  match db !! key with
  | Some (Entry (VZSet zs) _) => zs !! member
  | _ => None
  end.

(** The key is free or holds a sorted set. *)
Definition zset_or_absent (db : gmap string entry) (key : string) : Prop :=
  match db !! key with
  | Some (Entry (VZSet _) _) | None => True
  | Some _ => False
  end.

(** The key a command works on. *)
Definition key_of (c : command) : string :=
  match c with
  | ZREMRANGEBYSCORE key _ _ | ZCARD key | ZADD key _ _ | EXPIRE key _
  | GET key | INCRBY key _ | EVAL_token_bucket key _ _ _ _ => key
  end.

(** What [ZREMRANGEBYSCORE key lo hi] leaves at its key. *)
Definition zrem_entry (lo hi : Z) (o : option entry) : option entry :=
  match o with
  | Some (Entry (VZSet zs) ex) =>
      let zs' := filter (λ kv, ¬ in_range lo hi kv) zs in
      if decide (zs' = ∅) then None else Some (Entry (VZSet zs') ex)
  | _ => o
  end.

(** What a sliding-window check at [env] sees of the server: the live keys
    with the stale members of the identifier's set removed. *)
Definition pruned (env : Env) (identifier : string) (limit : RateLimit)
    (db : gmap string entry) : gmap string entry :=
  (exec (clock env)
     (ZREMRANGEBYSCORE (sliding_key identifier) 0 (clock env - window limit))
     (live (clock env) db)).2.

(** A run of [get_rate_limit_info] calls, one per environment. *)
Fixpoint peek_calls (w : W) (identifier : string) (limit : option RateLimit)
    (envs : list Env) : W :=
  match envs with
  | [] => w
  | e :: es =>
      peek_calls (get_rate_limit_info e w identifier limit).2 identifier limit es
  end.

(** Two worlds that a check at [env] cannot tell apart: the limiters agree
    up to the cached pool, the same path is taken, and the servers agree
    once the stale members are pruned. *)
Definition same_view (env : Env) (identifier : string) (limit : RateLimit)
    (a b : W) : Prop :=
  set_redis_pool (self a) = set_redis_pool (self b)
  ∧ (_get_redis env (self a)).1 = (_get_redis env (self b)).1
  ∧ pruned env identifier limit (server a) = pruned env identifier limit (server b).

(** The exceptions that come from the store layer or from arithmetic. *)
Definition store_error (e : exn) : Prop :=
  e = ZeroDivisionError ∨ e = ConnectionError ∨ e = ResponseError.

(** The characters that are special outside a class. *)
Definition glob_special (c : ascii) : bool :=
  Ascii.eqb c "*" || Ascii.eqb c "?" || Ascii.eqb c "[" || Ascii.eqb c "\".

(** No character of the string is special in a pattern. *)
Definition glob_plain (s : string) : bool :=
  forallb (λ c, negb (glob_special c)) (list_ascii_of_string s).

(** The readings of the claims that fail as they are written. *)


(** "Once denied, a cost-0 check made right after is denied too", for every
    strategy and path. *)
Definition monotonic_denial : Prop :=
  ∀ env w identifier limit cost,
    denied (check_rate_limit env w identifier limit cost).1 →
    denied (check_rate_limit env
              (check_rate_limit env w identifier limit cost).2
              identifier limit 0).1.

(** "Resetting [a] deletes the records of every identifier that [a] is a
    proper prefix of", on the remote path with the server answering. *)
Definition reset_deletes_prefixed : Prop :=
  ∀ env w a rest,
    (_get_redis env (self w)).1 = true →
    server_up env = true →
    rest ≠ EmptyString →
    server (reset_rate_limit env w a).2 !! sliding_key (a +:+ rest) = None.

(** A string without a colon. *)
Fixpoint colon_free (s : string) : Prop :=
  match s with
  | EmptyString => True
  | String c s1 => c ≠ ":"%char ∧ colon_free s1
  end.

(** The keys a check of [identifier] under a strategy works on. *)
Definition strategy_key (st : RateLimitStrategy) (identifier k : string) : Prop :=
  match st with
  | SLIDING_WINDOW => k = sliding_key identifier
  | FIXED_WINDOW => ∃ window_start, k = fixed_key identifier window_start
  | TOKEN_BUCKET => k = bucket_key identifier
  end.

(** The decision [check_rate_limit] hands to its caller. *)
Definition raise_if_exceeded (identifier : string) (limit : RateLimit)
    (r : result RateInfo.t) : result RateInfo.t :=
  match r with
  | Raise e => Raise e
  | Return rate_info =>
      if RateInfo.exceeded rate_info then
        Raise (RateLimitExceededException
                 ("Rate limit exceeded for " +:+ identifier)
                 (RateInfo.retry_after rate_info) (requests limit) (window limit))
      else Return rate_info
  end.

(** Every stored record holds at most [n] timestamps. *)
Definition memory_bounded (n : Z) (self : RateLimiter) : Prop :=
  ∀ identifier d, _memory_store self !! identifier = Some d →
    Z.of_nat (length (UserData.requests d)) ≤ n.

(** No stored timestamp is later than the last access of its record. *)
Definition record_ordered (d : UserData.t) : Prop :=
  Forall (λ req, req ≤ UserData.last_access d) (UserData.requests d).

(** The counter a key holds: 0 for a free key, nothing for another type. *)
Definition stored_count (db : gmap string entry) (key : string) : option Z :=
  match db !! key with
  | None => Some 0
  | Some (Entry (VInt n) _) => Some n
  | Some _ => None
  end.

(** The members of the identifier's sorted set that a check at [env] still
    counts: those whose score is outside [0, now - window]. *)
Definition window_members (env : Env) (limit : RateLimit)
    (db : gmap string entry) (identifier : string) : gmap string Z :=
  match live (clock env) db !! sliding_key identifier with
  | Some (Entry (VZSet zs) _) =>
      filter (λ kv, ¬ in_range 0 (clock env - window limit) kv) zs
  | _ => ∅
  end.

(** The ceiling a sliding-window check compares with. *)
Definition max_requests (self : RateLimiter) (limit : RateLimit) : Z :=
  if enable_burst self
  then py_int (py_mul_int_float (requests limit) (burst_multiplier self))
  else requests limit.

(** The exception object a caller of [check_rate_limit] catches. *)
Definition raised (r : result RateInfo.t) : option APIException.t :=
  match r with
  | Raise (RateLimitExceededException message retry_after limit window) =>
      Some (RateLimitExceededException_init message
              (Some retry_after) (Some limit) (Some window) None)
  | _ => None
  end.


(** C9 as stated: a check under another strategy never shows in a peek. *)
Definition peek_ignores_other_strategies : Prop :=
  ∀ env w identifier limit cost,
    strategy limit ≠ SLIDING_WINDOW →
    (get_rate_limit_info env
       (check_rate_limit env w identifier (Some limit) cost).2
       identifier (Some limit)).1
    = (get_rate_limit_info env w identifier (Some limit)).1.

(** The quota and the burst ceiling stay below the magnitude at which the
    conversion to a double or the product overflows. *)
Definition burst_in_double_range (self : RateLimiter) (limit : RateLimit) : Prop :=
  enable_burst self = true →
  (Qabs (inject_Z (requests limit)) < 2 ^ 1023)%Q
  ∧ (Qabs (inject_Z (requests limit) * burst_multiplier self) < 2 ^ 1023)%Q.

(** * Properties *)

(** ** Facts about the server model and the client *)

Section server_facts.
Implicit Types db : gmap string entry.

Lemma lookup_live now db k : live now db !! k = db !! k ≫= alive now.
Proof. unfold live. apply lookup_omap. Qed.

Lemma exec_lookup_ne now c db j :
  key_of c ≠ j → (exec now c db).2 !! j = db !! j.
Proof.
  intros Hne. destruct c; simpl in Hne; unfold exec, token_bucket_script;
    repeat (case_match; simpl; try done);
    rewrite ?lookup_insert_ne, ?lookup_delete_ne by done; done.
Qed.

Lemma exec_local now c db1 db2 :
  db1 !! key_of c = db2 !! key_of c →
  (exec now c db1).1 = (exec now c db2).1
  ∧ (exec now c db1).2 !! key_of c = (exec now c db2).2 !! key_of c.
Proof.
  intros H. destruct c; simpl in H; unfold exec, token_bucket_script;
    rewrite <- H; simpl;
    repeat (case_match; simpl; try done);
    rewrite ?lookup_insert_eq, ?lookup_delete_eq; try done;
    split; congruence.
Qed.

Lemma run_commands_lookup_ne now cmds db j :
  Forall (λ c, key_of c ≠ j) cmds →
  (run_commands now cmds db).2 !! j = db !! j.
Proof.
  intros H. revert db. induction H as [|c cs Hc _ IH]; intros db; [done|].
  simpl. pose proof (exec_lookup_ne now c db j Hc) as E.
  destruct (exec now c db) as [r db1]. specialize (IH db1).
  destruct (run_commands now cs db1) as [rs db2]. simpl in *. congruence.
Qed.

Lemma run_commands_local now k cmds db1 db2 :
  Forall (λ c, key_of c = k) cmds →
  db1 !! k = db2 !! k →
  (run_commands now cmds db1).1 = (run_commands now cmds db2).1
  ∧ (run_commands now cmds db1).2 !! k = (run_commands now cmds db2).2 !! k.
Proof.
  intros H. revert db1 db2.
  induction H as [|c cs Hc _ IH]; intros db1 db2 E; [done|].
  simpl. subst k. destruct (exec_local now c db1 db2 E) as [E1 E2].
  destruct (exec now c db1) as [r1 da], (exec now c db2) as [r2 db].
  simpl in *. destruct (IH da db E2) as [E3 E4].
  destruct (run_commands now cs da) as [rs1 da'],
           (run_commands now cs db) as [rs2 db'].
  simpl in *. split; congruence.
Qed.

Lemma exec_zrem_lookup now k lo hi db :
  (exec now (ZREMRANGEBYSCORE k lo hi) db).2 !! k = zrem_entry lo hi (db !! k).
Proof.
  unfold exec, zrem_entry.
  destruct (db !! k) as [[[zs|n|tk lr] ex]|] eqn:E; simpl; try done.
  case_decide; simpl; by rewrite ?lookup_delete_eq, ?lookup_insert_eq.
Qed.

Lemma exec_zcard_db now k db : (exec now (ZCARD k) db).2 = db.
Proof. unfold exec. by repeat case_match. Qed.

Lemma zrem_error_zcard now k lo hi db :
  is_error (exec now (ZREMRANGEBYSCORE k lo hi) db).1 = true →
  is_error (exec now (ZCARD k) (exec now (ZREMRANGEBYSCORE k lo hi) db).2).1 = true.
Proof.
  unfold exec. destruct (db !! k) as [[[zs|n|tk lr] ex]|] eqn:E; simpl; try done;
    by rewrite E.
Qed.

Lemma filter_range_absorb lo h1 h2 (zs : gmap string Z) :
  h1 ≤ h2 →
  filter (λ kv, ¬ in_range lo h2 kv) (filter (λ kv, ¬ in_range lo h1 kv) zs)
  = filter (λ kv, ¬ in_range lo h2 kv) zs.
Proof.
  intros Hle. rewrite map_filter_filter. apply map_filter_ext.
  intros i x _. unfold in_range. simpl. lia.
Qed.

Lemma zrem_entry_absorb lo h1 h2 o :
  h1 ≤ h2 → zrem_entry lo h2 (zrem_entry lo h1 o) = zrem_entry lo h2 o.
Proof.
  intros Hle. destruct o as [[[zs|n|tk lr] ex]|]; simpl; try done.
  pose proof (filter_range_absorb lo h1 h2 zs Hle) as Hf.
  case_decide as E1; simpl.
  - rewrite E1, map_filter_empty in Hf. rewrite decide_True; done.
  - by rewrite Hf.
Qed.

Lemma zrem_entry_alive t lo hi o :
  zrem_entry lo hi o ≫= alive t = zrem_entry lo hi (o ≫= alive t).
Proof.
  destruct o as [[[zs|n|tk lr] ex]|]; simpl; try done;
    unfold alive; simpl; destruct ex as [e|]; simpl; try done;
    repeat (case_decide; simpl; try done).
Qed.

Lemma alive_alive t1 t2 o :
  t1 ≤ t2 → (o ≫= alive t1) ≫= alive t2 = o ≫= alive t2.
Proof.
  intros Hle. destruct o as [[v [e|]]|]; simpl; try done.
  unfold alive; simpl. repeat (case_decide; simpl; try done); lia.
Qed.
End server_facts.

Lemma live_live_lookup now db j :
  live now (live now db) !! j = live now db !! j.
Proof. rewrite !lookup_live. by apply alive_alive. Qed.


Lemma run_commands_cons now c cs db :
  run_commands now (c :: cs) db
  = ((exec now c db).1 :: (run_commands now cs (exec now c db).2).1,
     (run_commands now cs (exec now c db).2).2).
Proof.
  cbn [run_commands]. destruct (exec now c db) as [r db1]. cbn [fst snd].
  destruct (run_commands now cs db1). reflexivity.
Qed.

Lemma pipeline_execute_up env cmds db :
  server_up env = true →
  pipeline_execute env cmds db
  = (if existsb is_error (run_commands (clock env) cmds (live (clock env) db)).1
     then Raise ResponseError
     else Return (run_commands (clock env) cmds (live (clock env) db)).1,
     (run_commands (clock env) cmds (live (clock env) db)).2).
Proof.
  intros Hup. unfold pipeline_execute. rewrite Hup.
  destruct (run_commands (clock env) cmds (live (clock env) db)) as [rs db']. reflexivity.
Qed.

Lemma pipeline_execute_down env cmds db :
  server_up env = false →
  pipeline_execute env cmds db = (Raise ConnectionError, db).
Proof. intros Hup. unfold pipeline_execute. by rewrite Hup. Qed.

Lemma pipeline_execute_raises env cmds db e db' :
  pipeline_execute env cmds db = (Raise e, db') → store_error e.
Proof.
  unfold pipeline_execute, store_error. destruct (server_up env).
  - destruct (run_commands _ _ _) as [rs d]. destruct (existsb _ _); naive_solver.
  - naive_solver.
Qed.

Lemma sliding_key_ne_fixed a b ws : sliding_key a ≠ fixed_key b ws.
Proof. unfold sliding_key, fixed_key. simpl. discriminate. Qed.

Lemma sliding_key_ne_bucket a b : sliding_key a ≠ bucket_key b.
Proof. unfold sliding_key, bucket_key. simpl. discriminate. Qed.

Lemma get_redis_pool env s : set_redis_pool (_get_redis env s).2 = set_redis_pool s.
Proof.
  unfold _get_redis.
  destruct (redis_installed env), (_redis_pool s), (from_url_ok env); done.
Qed.

Lemma get_redis_again e env s :
  redis_installed e = redis_installed env →
  from_url_ok e = from_url_ok env →
  (_get_redis env (_get_redis e s).2).1 = (_get_redis env s).1.
Proof.
  intros Hi Hu. unfold _get_redis. rewrite Hi, Hu.
  destruct (redis_installed env), (_redis_pool s) eqn:Hp, (from_url_ok env);
    simpl; rewrite ?Hp; done.
Qed.

Lemma check_remote_world env w identifier limit cost :
  (_get_redis env (self w)).1 = true →
  (check_rate_limit env w identifier (Some limit) cost).2
  = mkW (_get_redis env (self w)).2
        (_check_redis_rate_limit (_get_redis env (self w)).2 env identifier
           limit cost (server w)).2.
Proof.
  intros Hc. unfold check_rate_limit. cbn [default].
  destruct (_get_redis env (self w)) as [c s1]. simpl in Hc. subst c.
  cbn [fst snd].
  destruct (_check_redis_rate_limit _ _ _ _ _ _) as [[info|e] db]; [|done].
  by destruct (RateInfo.exceeded info).
Qed.

Lemma Qeq_bool_inject_pos n : 0 < n → Qeq_bool (inject_Z n) 0 = false.
Proof.
  intros H. destruct (Qeq_bool (inject_Z n) 0) eqn:E; [|done].
  apply Qeq_bool_eq in E. unfold Qeq in E. simpl in E. exfalso. lia.
Qed.

Lemma refill_rate_pos a b : 0 < a → 0 < b → (0 < inject_Z a / inject_Z b)%Q.
Proof.
  intros Ha Hb. apply Qlt_shift_div_l.
  - rewrite Zlt_Qlt in Hb. exact Hb.
  - rewrite Qmult_0_l. rewrite Zlt_Qlt in Ha. exact Ha.
Qed.

Lemma Qeq_bool_pos x : (0 < x)%Q → Qeq_bool x 0 = false.
Proof.
  intros H. destruct (Qeq_bool x 0) eqn:E; [|done].
  apply Qeq_bool_eq in E. exfalso. lra.
Qed.

(** [EXPIRE] with a time that the context shows positive keeps the key. *)
Ltac keep_key :=
  repeat match goal with
         | |- context [decide (?seconds ≤ 0)] =>
             rewrite (decide_False (P := seconds ≤ 0)) by lia
         end.

Ltac run_step :=
  lazy beta iota zeta;
  rewrite ?lookup_delete_eq, ?lookup_insert_eq, ?insert_insert_eq;
  keep_key.

(** ** The sliding-window scenario (C1) *)

(** C1, as stated, fails on the remote path: with the default burst
    allowance the ceiling is int(5 * 1.5) = 7, so the sixth check at t=0 is
    allowed, not denied. *)
Lemma sliding_scenario_remote_fails : ¬ sliding_scenario remote.
Proof.
  unfold sliding_scenario. vm_compute.
  intros (_ & _ & _ & _ & _ & (msg & l & wd & H) & _). discriminate H.
Qed.

(** C1 (amended): in the in-process fallback, which has no burst allowance,
    the scenario holds as stated (remaining 4,3,2,1,0, the sixth check denied
    with retry_after 60, the check at t=61 allowed); on the remote path with
    the default configuration the first check is allowed with remaining 4,
    the sixth check at t=0 is allowed, the ceiling being
    int(5 * 1.5) = 7, and the check at t=61 is allowed. *)
Theorem sliding_scenario_by_path :
  sliding_scenario fallback
  ∧ py_int (inject_Z 5 * burst_multiplier RateLimiter_default) = 7
  ∧ ∃ r1 r2 r3 r4 r5 r6 r7,
      (check_calls fresh_world (sliding_scenario_calls remote)).1
        = [r1; r2; r3; r4; r5; r6; r7]
      ∧ allowed_with 4 r1 ∧ allowed r6 ∧ allowed r7.
Proof.
  split; [|split].
  - unfold sliding_scenario.
    vm_compute. repeat split; try (eexists; repeat split; reflexivity).
    do 3 eexists; reflexivity.
  - reflexivity.
  - vm_compute. do 7 eexists. split; [reflexivity|].
    repeat split; eexists; repeat split; reflexivity.
Qed.

(** ** Token bucket: retry_after of a denied check (C2) *)

(** C2: a bucket of 10 tokens per 10 s, emptied by ten checks of cost 1 at
    t=0. The eleventh check at t=0 is denied with retry_after = 2, where
    ceil((cost - tokens) / refill_rate) = ceil((1 - 0) / 1) = 1: the code
    computes int(x) + 1, which is one more than ceil(x) when x is whole. *)
Theorem token_bucket_retry_after_whole_quotient :
  let limit := mkRateLimit 10 10 TOKEN_BUCKET in
  let c := (remote 0, "user_1", Some limit, 1) in
  let w := (check_calls fresh_world (replicate 10 c)).2 in
  (∃ tokens, stored_bucket (server w) "user_1" = Some (tokens, 0)
             ∧ (tokens == 0)%Q)
  ∧ denied_with 2 (check_rate_limit (remote 0) w "user_1" (Some limit) 1).1
  ∧ Qceiling ((inject_Z 1 - 0) / (inject_Z 10 / inject_Z 10)) = 1.
Proof.
  split; [|split].
  - vm_compute. eexists. split; reflexivity.
  - vm_compute. do 3 eexists. reflexivity.
  - reflexivity.
Qed.

(** ** Store failures (C3) *)

(** C3: the pool is created without connecting, so with the redis package
    present and the server down [_get_redis] still hands out a client; the
    connection error of the first command is not caught and reaches the
    caller of [check_rate_limit]. No fallback decision is produced. *)
Theorem check_surfaces_connection_error :
  check_rate_limit (outage 0) fresh_world "user_1" None 1
  = (Raise ConnectionError, mkW (set_redis_pool RateLimiter_default) ∅).
Proof. reflexivity. Qed.

(** The same for every world, identifier, cost and every limit whose window
    is not zero: with a client in hand and the server down the caller gets
    the connection error, and the fallback store is not consulted. *)
Lemma check_with_client_and_server_down env w identifier limit cost :
  (_get_redis env (self w)).1 = true →
  server_up env = false →
  window (default (default_limit (self w)) limit) ≠ 0 →
  let r := check_rate_limit env w identifier limit cost in
  r.1 = Raise ConnectionError
  ∧ _memory_store (self r.2) = _memory_store (self w).
Proof.
  intros Hc Hup Hw. unfold check_rate_limit.
  pose proof (get_redis_pool env (self w)) as Hp.
  destruct (_get_redis env (self w)) as [c s1]. simpl in Hc, Hp. subst c.
  apply (f_equal _memory_store) in Hp. simpl in Hp.
  unfold _check_redis_rate_limit, _sliding_window_redis, _fixed_window_redis,
    _token_bucket_redis, py_floordiv, py_truediv, execute_command.
  rewrite Hup, decide_False by done.
  destruct (Qeq_bool (inject_Z (window (default (default_limit (self w)) limit))) 0)
    eqn:Hq.
  { apply Qeq_bool_eq in Hq. unfold Qeq in Hq. simpl in Hq. lia. }
  lazy beta iota zeta. rewrite !pipeline_execute_down by done.
  by destruct (strategy _).
Qed.

(** The fallback is taken exactly when no client could be made, and then
    the caller sees a "memory_fallback" decision or the quota exception. *)
Lemma check_without_client env w identifier limit cost :
  (_get_redis env (self w)).1 = false →
  let r := (check_rate_limit env w identifier limit cost).1 in
  denied r ∨ ∃ info, r = Return info ∧ RateInfo.strategy info = "memory_fallback".
Proof.
  intros Hc. unfold check_rate_limit.
  destruct (_get_redis env (self w)) as [client self1]; simpl in Hc; subst client.
  cbn -[String.append].
  destruct (bool_decide _); cbn -[String.append].
  - left. do 4 eexists. reflexivity.
  - right. eexists. split; reflexivity.
Qed.

(** ** Configuration is not validated (C4) *)

(** C4, as stated, fails: [RateLimit(0, 60)] is constructed without error. *)
Lemma config_construction_accepts_zero :
  ¬ (∀ requests window strategy,
       requests ≤ 0 ∨ window ≤ 0 →
       ∃ e, RateLimit_init requests window strategy = Raise e).
Proof.
  intros H. destruct (H 0 60 None) as [e He]; [lia|]. discriminate He.
Qed.

(** C4 (amended): constructing a configuration never fails and checks
    nothing, whatever the values; a zero window is met only at check time,
    where the fixed-window and token-bucket checks of the remote path raise
    ZeroDivisionError before touching the store. *)
Theorem config_errors_only_at_check_time :
  (∀ requests window strategy,
     RateLimit_init requests window strategy
     = Return (mkRateLimit requests window (default SLIDING_WINDOW strategy)))
  ∧ (∀ self env identifier requests cost db,
       _check_redis_rate_limit self env identifier
         (mkRateLimit requests 0 FIXED_WINDOW) cost db
       = (Raise ZeroDivisionError, db))
  ∧ (∀ self env identifier requests cost db,
       _check_redis_rate_limit self env identifier
         (mkRateLimit requests 0 TOKEN_BUCKET) cost db
       = (Raise ZeroDivisionError, db)).
Proof. repeat split. Qed.

(** ** What a sliding-window check adds (C5) *)


Lemma fallback_sixth_check_not_counted :
  let limit := Some (mkRateLimit 5 60 SLIDING_WINDOW) in
  let c := (fallback 0, "user_1", limit, 1) in
  let w5 := (check_calls fresh_world (replicate 5 c)).2 in
  let r6 := check_rate_limit (fallback 0) w5 "user_1" limit 1 in
  denied r6.1
  ∧ memory_requests (self w5) "user_1" = [0; 0; 0; 0; 0]
  ∧ memory_requests (self r6.2) "user_1" = [0; 0; 0; 0; 0].
Proof.
  split; [|split]; vm_compute; [|reflexivity..].
  do 4 eexists. reflexivity.
Qed.





(** ** Denial after denial (C6) *)

(** C6, as stated, fails: a token bucket of 10 tokens emptied by ten checks
    denies the eleventh and allows a cost-0 check made right after it,
    since 0 tokens cover a cost of 0. *)
Lemma monotonic_denial_fails : ¬ monotonic_denial.
Proof.
  intros H.
  specialize (H (remote 0)
                (check_calls fresh_world
                   (replicate 10 (remote 0, "user_1",
                                  Some (mkRateLimit 10 10 TOKEN_BUCKET), 1))).2
                "user_1" (Some (mkRateLimit 10 10 TOKEN_BUCKET)) 1).
  vm_compute in H.
  destruct H as (msg & ra & l & wd & H); [|discriminate H].
  do 4 eexists. reflexivity.
Qed.

(** The fallback store behaves the same way: it denies the sixth check of
    the sliding scenario and allows a cost-0 check made right after it. *)
Lemma fallback_denial_then_free_probe :
  let limit := Some (mkRateLimit 5 60 SLIDING_WINDOW) in
  let c := (fallback 0, "user_1", limit, 1) in
  let w := (check_calls fresh_world (replicate 5 c)).2 in
  let r := check_rate_limit (fallback 0) w "user_1" limit 1 in
  denied r.1 ∧ allowed (check_rate_limit (fallback 0) r.2 "user_1" limit 0).1.
Proof.
  split; vm_compute.
  - do 4 eexists. reflexivity.
  - eexists. split; reflexivity.
Qed.

Lemma fixed_window_denied_again s s' env identifier limit cost db info db' :
  0 < window limit →
  _fixed_window_redis s env identifier limit cost (clock env) db = (Return info, db') →
  RateInfo.exceeded info = true →
  ∃ info',
    (_fixed_window_redis s' env identifier limit 0 (clock env) db').1 = Return info'
    ∧ RateInfo.exceeded info' = true.
Proof.
  intros Hw. unfold _fixed_window_redis, py_floordiv.
  rewrite decide_False by lia.
  set (key := fixed_key identifier _).
  destruct (server_up env) eqn:Hup.
  2:{ by rewrite pipeline_execute_down. }
  rewrite pipeline_execute_up by done.
  assert (∀ n ex, int64_ok n = true → bool_decide (n > requests limit) = true →
            ∃ info',
              (let (r, d) :=
                 pipeline_execute env
                   [GET key; INCRBY key 0; EXPIRE key (window limit + 60)]
                   (<[key := Entry (VInt n) (Some (clock env + (window limit + 60)))]> ex)
               in match r with
                  | Return results =>
                      Return (RateInfo.mk
                        (bool_decide (reply_int (nth 1 results RNil) > requests limit))
                        (requests limit)
                        (0 `max` (requests limit - reply_int (nth 1 results RNil)))
                        (PyInt ((clock env) `div` (window limit) * window limit + window limit))
                        (if bool_decide (reply_int (nth 1 results RNil) > requests limit)
                         then (clock env) `div` (window limit) * window limit + window limit - clock env
                         else 0)
                        (strategy_value (strategy limit)))
                  | Raise e => Raise e
                  end) = Return info'
              ∧ RateInfo.exceeded info' = true) as Hagain.
  { intros n d Hn Hex. rewrite pipeline_execute_up by done.
    assert (live (clock env)
              (<[key := Entry (VInt n) (Some (clock env + (window limit + 60)))]> d)
            !! key = Some (Entry (VInt n) (Some (clock env + (window limit + 60))))) as E.
    { rewrite lookup_live, lookup_insert_eq. simpl. unfold alive. simpl.
      rewrite decide_True by lia. done. }
    unfold run_commands, exec. repeat progress (rewrite ?E; run_step).
    replace (n + 0) with n by lia. rewrite Hn. cbn [andb int64_ok].
    replace (int64_ok 0) with true by reflexivity. cbn [andb].
    repeat progress run_step. cbn. rewrite Hex. eexists. split; reflexivity. }
  unfold run_commands, exec.
  destruct (live (clock env) db !! key) as [[[zs|n|tk lr] ex]|] eqn:E;
    repeat progress (rewrite ?E; run_step); cbn; try discriminate.
  - destruct (int64_ok cost && int64_ok (n + cost)) eqn:Hok;
      repeat progress (rewrite ?E; run_step); cbn; [|discriminate].
    intros [= <- <-]. cbn. intros Hex.
    apply andb_prop in Hok as [_ Hok].
    destruct (Hagain (n + cost) (live (clock env) db) Hok Hex) as (info' & H1 & H2).
    exists info'. split; [|done].
    destruct (pipeline_execute _ _ _) as [[]]; exact H1.
  - destruct (int64_ok cost) eqn:Hok;
      repeat progress (rewrite ?E; run_step); cbn; [|discriminate].
    intros [= <- <-]. cbn. intros Hex.
    destruct (Hagain cost (live (clock env) db) Hok Hex) as (info' & H1 & H2).
    exists info'. split; [|done].
    destruct (pipeline_execute _ _ _) as [[]]; exact H1.
Qed.

Lemma fixed_window_raises s env identifier limit cost db e db' :
  _fixed_window_redis s env identifier limit cost (clock env) db = (Raise e, db') →
  store_error e.
Proof.
  unfold _fixed_window_redis, py_floordiv. case_decide.
  - unfold store_error. naive_solver.
  - destruct (pipeline_execute _ _ _) as [[rs|e'] d] eqn:E; [done|].
    intros [= <- <-]. by eapply pipeline_execute_raises.
Qed.

Lemma store_error_not_denied e : store_error e → ¬ denied (Raise e).
Proof. intros [->|[->| ->]] (? & ? & ? & ? & ?); discriminate. Qed.

(** C6 (amended): for the fixed-window strategy on the remote path with a
    positive window, a check that is denied is followed by a denial of a
    cost-0 check made at the same timestamp. *)
Theorem fixed_window_denial_is_monotone env w identifier limit cost :
  strategy limit = FIXED_WINDOW →
  0 < window limit →
  (_get_redis env (self w)).1 = true →
  let r1 := check_rate_limit env w identifier (Some limit) cost in
  denied r1.1 →
  denied (check_rate_limit env r1.2 identifier (Some limit) 0).1.
Proof.
  intros Hs Hw Hc r1. subst r1.
  unfold check_rate_limit at 1 3. cbn [default from_option id].
  pose proof (get_redis_again env env (self w) eq_refl eq_refl) as Hg.
  destruct (_get_redis env (self w)) as [c s1]. simpl in Hc, Hg. subst c.
  unfold _check_redis_rate_limit. rewrite Hs.
  destruct (_fixed_window_redis s1 env identifier limit cost (clock env) (server w))
    as [[info|e] db'] eqn:E1; cbn [fst snd].
  2:{ intros Hd. by apply store_error_not_denied in Hd;
        [|eapply fixed_window_raises]. }
  destruct (RateInfo.exceeded info) eqn:Hex; cbn [fst snd].
  2:{ intros (? & ? & ? & ? & ?). discriminate. }
  intros _. unfold check_rate_limit. cbn [default from_option id self server].
  destruct (_get_redis env s1) as [c s2]. simpl in Hg. subst c.
  unfold _check_redis_rate_limit. rewrite Hs.
  destruct (fixed_window_denied_again s1 s2 env identifier limit cost _ _ _ Hw E1 Hex)
    as (info' & H1 & H2).
  destruct (_fixed_window_redis s2 _ _ _ _ _ _) as [r2 d2]. simpl in H1. subst r2.
  rewrite H2. cbn. do 4 eexists. reflexivity.
Qed.

Lemma fixed_window_denial_witness :
  let limit := mkRateLimit 1 60 FIXED_WINDOW in
  let w := (check_rate_limit (remote 0) fresh_world "user_1" (Some limit) 1).2 in
  let r1 := check_rate_limit (remote 0) w "user_1" (Some limit) 1 in
  denied r1.1 ∧ denied (check_rate_limit (remote 0) r1.2 "user_1" (Some limit) 0).1.
Proof.
  assert (denied
            (check_rate_limit (remote 0)
               (check_rate_limit (remote 0) fresh_world "user_1"
                  (Some (mkRateLimit 1 60 FIXED_WINDOW)) 1).2
               "user_1" (Some (mkRateLimit 1 60 FIXED_WINDOW)) 1).1) as Hd.
  { vm_compute. do 4 eexists. reflexivity. }
  split; [exact Hd|].
  apply fixed_window_denial_is_monotone; [reflexivity|simpl; lia|reflexivity|exact Hd].
Defined.

(** ** Peeks between two checks (C7) *)

Lemma pruned_lookup env identifier limit db j :
  pruned env identifier limit db !! j
  = if decide (j = sliding_key identifier)
    then zrem_entry 0 (clock env - window limit) (db !! j ≫= alive (clock env))
    else db !! j ≫= alive (clock env).
Proof.
  unfold pruned. case_decide as E.
  - subst j. by rewrite exec_zrem_lookup, lookup_live.
  - rewrite exec_lookup_ne by (simpl; congruence). apply lookup_live.
Qed.

Lemma pruned_pruned ep env identifier limit db :
  clock ep ≤ clock env →
  pruned env identifier limit (pruned ep identifier limit db)
  = pruned env identifier limit db.
Proof.
  intros Hle. apply map_eq. intros j. rewrite !pruned_lookup.
  case_decide as E.
  - rewrite zrem_entry_alive, alive_alive by done.
    apply zrem_entry_absorb. lia.
  - by apply alive_alive.
Qed.

Lemma sliding_check_view s1 s2 env identifier limit cost db1 db2 :
  enable_burst s1 = enable_burst s2 →
  burst_multiplier s1 = burst_multiplier s2 →
  pruned env identifier limit db1 = pruned env identifier limit db2 →
  (_sliding_window_redis s1 env identifier limit cost (clock env) db1).1
  = (_sliding_window_redis s2 env identifier limit cost (clock env) db2).1.
Proof.
  intros Hb Hm Hp. unfold _sliding_window_redis.
  destruct (server_up env) eqn:Hup.
  2:{ by rewrite !pipeline_execute_down. }
  rewrite !pipeline_execute_up by done.
  rewrite !(run_commands_cons _ (ZREMRANGEBYSCORE _ _ _)).
  fold (pruned env identifier limit db1) (pruned env identifier limit db2).
  rewrite <- Hp, <- Hb, <- Hm.
  set (rest := run_commands _ _ (pruned env identifier limit db1)).
  assert (∀ db, pruned env identifier limit db = pruned env identifier limit db1 →
            existsb is_error
              ((exec (clock env)
                  (ZREMRANGEBYSCORE (sliding_key identifier) 0
                     (clock env - window limit)) (live (clock env) db)).1 :: rest.1)
            = existsb is_error rest.1) as Herr.
  { intros db Hdb. cbn [existsb].
    destruct (is_error (exec _ _ (live _ db)).1) eqn:E; [|done].
    apply zrem_error_zcard in E. fold (pruned env identifier limit db) in E.
    rewrite Hdb in E. subst rest. rewrite run_commands_cons. cbn [existsb fst].
    by rewrite E. }
  cbn [fst snd]. rewrite (Herr db1), (Herr db2) by done.
  destruct (existsb is_error rest.1); reflexivity.
Qed.

Lemma fixed_check_local s1 s2 env identifier limit cost db1 db2 :
  (∀ ws, live (clock env) db1 !! fixed_key identifier ws
         = live (clock env) db2 !! fixed_key identifier ws) →
  (_fixed_window_redis s1 env identifier limit cost (clock env) db1).1
  = (_fixed_window_redis s2 env identifier limit cost (clock env) db2).1.
Proof.
  intros H. unfold _fixed_window_redis.
  destruct (py_floordiv _ _) as [q|e]; [|done].
  destruct (server_up env) eqn:Hup.
  2:{ by rewrite !pipeline_execute_down. }
  rewrite !pipeline_execute_up by done. cbn [fst snd].
  edestruct (run_commands_local (clock env) (fixed_key identifier (q * window limit)))
    as [E _]; [|apply H|rewrite E].
  { repeat constructor. }
  by destruct (existsb _ _).
Qed.

Lemma token_check_local s1 s2 env identifier limit cost db1 db2 :
  live (clock env) db1 !! bucket_key identifier
  = live (clock env) db2 !! bucket_key identifier →
  (_token_bucket_redis s1 env identifier limit cost (clock env) db1).1
  = (_token_bucket_redis s2 env identifier limit cost (clock env) db2).1.
Proof.
  intros H. unfold _token_bucket_redis.
  destruct (py_truediv _ _) as [rate|e]; [|done].
  unfold execute_command. destruct (server_up env); [|done].
  match goal with
  | |- context [exec ?now ?c (live _ db1)] =>
      destruct (exec_local now c _ _ H) as [E _];
      destruct (exec now c (live now db1)) as [r1 d1],
               (exec now c (live now db2)) as [r2 d2]
  end.
  simpl in E. subst r2. destruct (is_error r1); [done|]. cbn [fst snd].
  destruct (negb _); cbn [fst snd].
  - by destruct (py_truediv _ rate).
  - destruct (py_truediv _ rate); [|done]. by destruct (py_truediv _ rate).
Qed.

Lemma pruned_live_ne env identifier limit db1 db2 j :
  pruned env identifier limit db1 = pruned env identifier limit db2 →
  j ≠ sliding_key identifier →
  live (clock env) db1 !! j = live (clock env) db2 !! j.
Proof.
  intros Hp Hj. apply (f_equal (λ m, m !! j)) in Hp.
  rewrite !pruned_lookup, !decide_False in Hp by done.
  by rewrite !lookup_live.
Qed.

Lemma check_redis_view s1 s2 env identifier limit cost db1 db2 :
  enable_burst s1 = enable_burst s2 →
  burst_multiplier s1 = burst_multiplier s2 →
  pruned env identifier limit db1 = pruned env identifier limit db2 →
  (_check_redis_rate_limit s1 env identifier limit cost db1).1
  = (_check_redis_rate_limit s2 env identifier limit cost db2).1.
Proof.
  intros Hb Hm Hp. unfold _check_redis_rate_limit. destruct (strategy limit).
  - apply fixed_check_local. intros ws.
    eapply pruned_live_ne; [done|]. intros E. symmetry in E.
    by apply sliding_key_ne_fixed in E.
  - by apply sliding_check_view.
  - apply token_check_local. eapply pruned_live_ne; [done|].
    intros E. symmetry in E. by apply sliding_key_ne_bucket in E.
Qed.

Lemma memory_check_pool s1 s2 env identifier limit cost :
  set_redis_pool s1 = set_redis_pool s2 →
  (_check_memory_rate_limit s1 env identifier limit cost).1
  = (_check_memory_rate_limit s2 env identifier limit cost).1.
Proof.
  intros H. apply (f_equal _memory_store) in H. simpl in H.
  unfold _check_memory_rate_limit, _cleanup_memory_store. rewrite H.
  destruct (bool_decide (Z.of_nat (size (_memory_store s2)) > 1000));
    cbn [fst set_memory_store _memory_store]; rewrite ?H; reflexivity.
Qed.

Lemma check_same_view env identifier limit cost a b :
  same_view env identifier (default (default_limit (self a)) limit) a b →
  (check_rate_limit env a identifier limit cost).1
  = (check_rate_limit env b identifier limit cost).1.
Proof.
  intros (Hs & Hc & Hp). unfold check_rate_limit.
  assert (default_limit (self a) = default_limit (self b)) as Hd
    by apply (f_equal default_limit Hs).
  rewrite <- Hd. set (lim := default (default_limit (self a)) limit) in *.
  pose proof (get_redis_pool env (self a)) as Ha.
  pose proof (get_redis_pool env (self b)) as Hb.
  destruct (_get_redis env (self a)) as [ca sa], (_get_redis env (self b)) as [cb sb].
  simpl in Hc, Ha, Hb. subst cb.
  assert (set_redis_pool sa = set_redis_pool sb) as Hss by congruence.
  destruct ca.
  - pose proof (check_redis_view sa sb env identifier lim cost (server a) (server b)
                  (f_equal enable_burst Hss) (f_equal burst_multiplier Hss) Hp) as E.
    destruct (_check_redis_rate_limit sa _ _ _ _ _) as [ra da],
             (_check_redis_rate_limit sb _ _ _ _ _) as [rb db'].
    simpl in E. subst rb. destruct ra as [info|e]; [|done].
    by destruct (RateInfo.exceeded info).
  - pose proof (memory_check_pool sa sb env identifier lim cost Hss) as E.
    destruct (_check_memory_rate_limit sa _ _ _ _) as [ra sa'],
             (_check_memory_rate_limit sb _ _ _ _) as [rb sb'].
    simpl in E. subst rb. by destruct (RateInfo.exceeded ra).
Qed.

Lemma peek_same_view env e identifier limit w :
  redis_installed e = redis_installed env →
  from_url_ok e = from_url_ok env →
  clock e ≤ clock env →
  same_view env identifier (default (default_limit (self w)) limit)
    w (get_rate_limit_info e w identifier limit).2.
Proof.
  intros Hi Hu Hle. unfold get_rate_limit_info.
  set (lim := default (default_limit (self w)) limit).
  pose proof (get_redis_pool e (self w)) as Hp.
  pose proof (get_redis_again e env (self w) Hi Hu) as Hg.
  destruct (_get_redis e (self w)) as [c s1]. simpl in Hp, Hg.
  assert (∀ db, pruned env identifier lim db = pruned env identifier lim (server w) →
                same_view env identifier lim w (mkW s1 db)) as Hsame.
  { intros db Hdb. by repeat split. }
  destruct c.
  - destruct (server_up e) eqn:Hup.
    + rewrite pipeline_execute_up by done.
      rewrite !run_commands_cons. cbn [fst snd run_commands].
      rewrite exec_zcard_db. fold (pruned e identifier lim (server w)).
      destruct (existsb _ _); cbn [snd]; apply Hsame; by apply pruned_pruned.
    + rewrite pipeline_execute_down by done. by apply Hsame.
  - destruct (_memory_store s1 !! identifier); by apply Hsame.
Qed.

Lemma same_view_trans env identifier limit a b c :
  same_view env identifier limit a b → same_view env identifier limit b c →
  same_view env identifier limit a c.
Proof. intros (?&?&?) (?&?&?). repeat split; congruence. Qed.

Lemma peek_calls_same_view env identifier limit peeks w :
  Forall (λ e, redis_installed e = redis_installed env
               ∧ from_url_ok e = from_url_ok env
               ∧ clock e ≤ clock env) peeks →
  same_view env identifier (default (default_limit (self w)) limit)
    w (peek_calls w identifier limit peeks).
Proof.
  intros H. revert w. induction H as [|e es (Hi & Hu & Hle) _ IH]; intros w.
  - by repeat split.
  - simpl. pose proof (peek_same_view env e identifier limit w Hi Hu Hle) as H1.
    eapply same_view_trans; [exact H1|].
    destruct H1 as (Hs & _). apply (f_equal default_limit) in Hs. simpl in Hs.
    rewrite Hs. apply IH.
Qed.

(** C7: take any world, run a check, then any number of peeks of the same
    identifier and limit, then a second check. If the package and the URL
    are what they are for the second check and no peek is made after it
    (clocks do not run backwards), the second check gives exactly what it
    gives without the peeks: the same decision with the same remaining, or
    the same exception. A peek does prune stale members of the sliding-window
    set, but only members that the next check prunes as well. *)
Theorem peeks_leave_next_check_unchanged w identifier limit env1 cost1 env2 cost2 peeks :
  Forall (λ e, redis_installed e = redis_installed env2
               ∧ from_url_ok e = from_url_ok env2
               ∧ clock e ≤ clock env2) peeks →
  let w1 := (check_rate_limit env1 w identifier limit cost1).2 in
  (check_rate_limit env2 (peek_calls w1 identifier limit peeks) identifier limit cost2).1
  = (check_rate_limit env2 w1 identifier limit cost2).1.
Proof.
  intros H w1. symmetry. apply check_same_view.
  by apply peek_calls_same_view.
Qed.

Lemma peeks_leave_next_check_unchanged_witness :
  let limit := Some (mkRateLimit 2 60 SLIDING_WINDOW) in
  let w1 := (check_rate_limit (remote 0) fresh_world "user_1" limit 1).2 in
  (check_rate_limit (remote 70)
     (peek_calls w1 "user_1" limit [remote 5; outage 30; remote 65])
     "user_1" limit 1).1
  = (check_rate_limit (remote 70) w1 "user_1" limit 1).1.
Proof.
  apply peeks_leave_next_check_unchanged.
  repeat constructor; simpl; lia.
Defined.

(** ** Token bucket: the refill bound (C8) *)











(** ** What a peek reads (C9) *)

Lemma check_redis_keeps_sliding s env identifier limit cost db j :
  strategy limit ≠ SLIDING_WINDOW →
  live (clock env) (_check_redis_rate_limit s env identifier limit cost db).2
    !! sliding_key j
  = live (clock env) db !! sliding_key j.
Proof.
  intros Hs. unfold _check_redis_rate_limit.
  destruct (strategy limit); [|done|].
  - unfold _fixed_window_redis. destruct (py_floordiv _ _) as [q|e]; [|done].
    destruct (server_up env) eqn:Hup.
    2:{ by rewrite pipeline_execute_down. }
    rewrite pipeline_execute_up by done.
    destruct (existsb _ _); cbn [snd];
      rewrite lookup_live, run_commands_lookup_ne, <- lookup_live;
      try apply live_live_lookup;
      repeat constructor; simpl; intros E; symmetry in E;
      by apply sliding_key_ne_fixed in E.
  - unfold _token_bucket_redis. destruct (py_truediv _ _) as [rate|e]; [|done].
    unfold execute_command. destruct (server_up env); [|done].
    match goal with
    | |- context [exec ?now ?c ?d] =>
        pose proof (exec_lookup_ne now c d (sliding_key j)) as E;
        destruct (exec now c d) as [r1 d1]
    end.
    simpl in E.
    assert (live (clock env) d1 !! sliding_key j = live (clock env) db !! sliding_key j) as E'.
    { rewrite lookup_live, E, <- lookup_live; [apply live_live_lookup|].
      intros E2. symmetry in E2. by apply sliding_key_ne_bucket in E2. }
    destruct (is_error r1); [done|]. cbn [fst snd].
    destruct (negb _); cbn [fst snd].
    + by destruct (py_truediv _ rate).
    + destruct (py_truediv _ rate); [|done]. by destruct (py_truediv _ rate).
Qed.

Lemma peek_remote_local s1 s2 env identifier limit db1 db2 :
  (_get_redis env s1).1 = true →
  (_get_redis env s2).1 = true →
  live (clock env) db1 !! sliding_key identifier
  = live (clock env) db2 !! sliding_key identifier →
  (get_rate_limit_info env (mkW s1 db1) identifier (Some limit)).1
  = (get_rate_limit_info env (mkW s2 db2) identifier (Some limit)).1.
Proof.
  intros H1 H2 E. unfold get_rate_limit_info. cbn [self server default].
  destruct (_get_redis env s1) as [c1 s1'], (_get_redis env s2) as [c2 s2'].
  simpl in H1, H2. subst c1 c2.
  destruct (server_up env) eqn:Hup.
  2:{ by rewrite !pipeline_execute_down. }
  rewrite !pipeline_execute_up by done.
  edestruct (run_commands_local (clock env) (sliding_key identifier))
    as [Er _]; [|exact E|rewrite Er].
  { repeat constructor. }
  by destruct (existsb _ _).
Qed.

Lemma peek_remote_result env w identifier limit :
  (_get_redis env (self w)).1 = true →
  server_up env = true →
  zset_or_absent (live (clock env) (server w)) (sliding_key identifier) →
  let n := Z.of_nat (size (window_members env limit (server w) identifier)) in
  (get_rate_limit_info env w identifier (Some limit)).1
  = Return (StatusInfo.mk (requests limit) (0 `max` (requests limit - n))
              (clock env + window limit) n).
Proof.
  intros Hc Hup Hz n. subst n. unfold get_rate_limit_info.
  cbn [default from_option id].
  destruct (_get_redis env (self w)) as [c s1]. simpl in Hc. subst c.
  rewrite pipeline_execute_up by done.
  unfold window_members, zset_or_absent in *. unfold run_commands, exec.
  set (key := sliding_key identifier) in *.
  destruct (live (clock env) (server w) !! key) as [[[zs|m|tk lr] ex]|] eqn:E;
    try done.
  - repeat progress (rewrite ?E; run_step).
    destruct (decide (filter _ zs = ∅)) as [Hemp|Hne];
      repeat progress (rewrite ?E; run_step);
      cbn [fst snd nth reply_int existsb is_error orb].
    + by rewrite Hemp, map_size_empty.
    + done.
  - repeat progress (rewrite ?E; run_step).
    cbn [fst snd nth reply_int existsb is_error orb].
    by rewrite map_size_empty.
Qed.

Lemma peek_fallback_result env w identifier limit :
  (_get_redis env (self w)).1 = false →
  let n := Z.of_nat (length (filter (λ req, clock env - window limit ≤ req)
                               (memory_requests (self w) identifier))) in
  (get_rate_limit_info env w identifier (Some limit)).1
  = Return (StatusInfo.mk (requests limit)
              (match _memory_store (self w) !! identifier with
               | Some _ => 0 `max` (requests limit - n)
               | None => requests limit
               end)
              (clock env + window limit) n).
Proof.
  intros Hc n. subst n. unfold get_rate_limit_info, memory_requests.
  cbn [default from_option id].
  assert (_memory_store (_get_redis env (self w)).2 = _memory_store (self w)) as Hm.
  { unfold _get_redis. by repeat case_match. }
  destruct (_get_redis env (self w)) as [c s1]. simpl in Hc, Hm. subst c.
  rewrite Hm. by destruct (_memory_store (self w) !! identifier).
Qed.

(** C9, as stated, fails on the fallback path: there the checks of every
    strategy append to the list a peek reads, so a token-bucket check of
    cost 2 shows in the next peek, which reports 2 requests and 3 left of
    5. *)
Lemma peek_reflects_fallback_checks : ¬ peek_ignores_other_strategies.
Proof.
  intros H.
  specialize (H (fallback 0) fresh_world "user_1"
                (mkRateLimit 5 60 TOKEN_BUCKET) 2 ltac:(discriminate)).
  vm_compute in H. discriminate H.
Qed.

Lemma peek_after_fallback_token_check :
  let limit := mkRateLimit 5 60 TOKEN_BUCKET in
  let w := (check_rate_limit (fallback 0) fresh_world "user_1" (Some limit) 2).2 in
  (get_rate_limit_info (fallback 0) fresh_world "user_1" (Some limit)).1
  = Return (StatusInfo.mk 5 5 60 0)
  ∧ (get_rate_limit_info (fallback 0) w "user_1" (Some limit)).1
    = Return (StatusInfo.mk 5 3 60 2).
Proof. split; reflexivity. Qed.

(** C9 (amended): [get_rate_limit_info] never looks at [limit.strategy].
    With a client and the server answering it reports exactly the
    sliding-window set of the identifier: [current_requests] is the number
    of members with a score outside [0, now - window] and [remaining] is
    [max(0, requests - current_requests)], so an empty set gives
    [remaining = requests]; a fixed-window or token-bucket check of the
    identifier leaves that report unchanged. Without a client it reports
    the identifier's list of the fallback store, the timestamps not older
    than [now - window], which the fallback checks of every strategy
    append to. *)
Theorem peek_reads_sliding_window_only env w identifier limit :
  (∀ s, get_rate_limit_info env w identifier
          (Some (mkRateLimit (requests limit) (window limit) s))
        = get_rate_limit_info env w identifier (Some limit))
  ∧ ((_get_redis env (self w)).1 = true →
     server_up env = true →
     zset_or_absent (live (clock env) (server w)) (sliding_key identifier) →
     let n := Z.of_nat (size (window_members env limit (server w) identifier)) in
     (get_rate_limit_info env w identifier (Some limit)).1
     = Return (StatusInfo.mk (requests limit) (0 `max` (requests limit - n))
                 (clock env + window limit) n))
  ∧ (∀ cost,
       strategy limit ≠ SLIDING_WINDOW →
       (_get_redis env (self w)).1 = true →
       let w' := (check_rate_limit env w identifier (Some limit) cost).2 in
       (get_rate_limit_info env w' identifier (Some limit)).1
       = (get_rate_limit_info env w identifier (Some limit)).1)
  ∧ ((_get_redis env (self w)).1 = false →
     let n := Z.of_nat (length (filter (λ req, clock env - window limit ≤ req)
                                  (memory_requests (self w) identifier))) in
     (get_rate_limit_info env w identifier (Some limit)).1
     = Return (StatusInfo.mk (requests limit)
                 (match _memory_store (self w) !! identifier with
                  | Some _ => 0 `max` (requests limit - n)
                  | None => requests limit
                  end)
                 (clock env + window limit) n)).
Proof.
  split; [|split; [|split]].
  - intros s. by destruct limit.
  - apply peek_remote_result.
  - intros cost Hs Hc w'. subst w'. rewrite check_remote_world by done.
    destruct w as [s0 db]. cbn [self server] in *.
    apply peek_remote_local; [|done|].
    + rewrite get_redis_again; done.
    + by apply check_redis_keeps_sliding.
  - apply peek_fallback_result.
Qed.

Lemma peek_reads_sliding_window_only_witness :
  let sliding := mkRateLimit 10 10 SLIDING_WINDOW in
  let bucket := mkRateLimit 10 10 TOKEN_BUCKET in
  let w := (check_rate_limit (remote 0) fresh_world "user_1" (Some sliding) 1).2 in
  let w' := (check_rate_limit (remote 0) w "user_1" (Some bucket) 1).2 in
  (get_rate_limit_info (remote 0) w "user_1" (Some bucket)).1
  = Return (StatusInfo.mk 10 9 10 1)
  ∧ (get_rate_limit_info (remote 0) w' "user_1" (Some bucket)).1
    = (get_rate_limit_info (remote 0) w "user_1" (Some bucket)).1.
Proof.
  intros sliding bucket w w'.
  destruct (peek_reads_sliding_window_only (remote 0) w "user_1" bucket)
    as (_ & Hpin & Hframe & _).
  split.
  - pose proof (Hpin eq_refl eq_refl ltac:(vm_compute; exact I)) as H.
    vm_compute in H |- *. exact H.
  - apply Hframe.
    + discriminate.
    + reflexivity.
Defined.

(** ** Reset (C10) *)

Section glob_facts.
Implicit Types (l s x : list ascii) (ts : list glob_token).

Lemma list_ascii_of_string_app (a b : string) :
  list_ascii_of_string (a +:+ b)
  = (list_ascii_of_string a ++ list_ascii_of_string b)%list.
Proof. induction a as [|c a IH]; simpl; [done|]. by rewrite IH. Qed.

Lemma glob_parse_plain l p :
  forallb (λ c, negb (glob_special c)) l = true →
  glob_parse GTop (l ++ p) = (map GLit l ++ glob_parse GTop p)%list.
Proof.
  induction l as [|c l IH]; simpl; [done|].
  intros [Hc Hl]%andb_prop. rewrite <- (IH Hl).
  unfold glob_special in Hc.
  destruct (Ascii.eqb c "*"), (Ascii.eqb c "?"), (Ascii.eqb c "["),
    (Ascii.eqb c "\"); done.
Qed.

Lemma glob_tokens_star ts s :
  glob_tokens (GStar :: ts) s
  = glob_tokens ts s
    || match s with [] => false | _ :: s1 => glob_tokens (GStar :: ts) s1 end.
Proof. by destruct s. Qed.

Lemma glob_tokens_lit c ts s :
  glob_tokens (GLit c :: ts) (c :: s) = glob_tokens ts s.
Proof. simpl. by rewrite Ascii.eqb_refl. Qed.

Lemma glob_tokens_lits l ts s :
  glob_tokens (map GLit l ++ ts) (l ++ s) = glob_tokens ts s.
Proof.
  induction l as [|c l IH]; [done|].
  cbn [map app]. by rewrite glob_tokens_lit.
Qed.

Lemma glob_star_skip ts x s :
  glob_tokens ts s = true → glob_tokens (GStar :: ts) (x ++ s) = true.
Proof.
  intros H. induction x as [|c x IH]; rewrite glob_tokens_star.
  - simpl. by rewrite H.
  - cbn [app]. rewrite IH. apply orb_true_r.
Qed.

Lemma glob_star_end s : glob_tokens [GStar] s = true.
Proof.
  induction s as [|c s IH]; rewrite glob_tokens_star; [done|].
  rewrite IH. apply orb_true_r.
Qed.
End glob_facts.

Lemma string_app_assoc (a b c : string) : a +:+ b +:+ c = (a +:+ b) +:+ c.
Proof.
  induction a as [|x a IH]; [done|].
  change (String x (a +:+ b +:+ c) = String x ((a +:+ b) +:+ c)).
  by rewrite IH.
Qed.

(** The reset pattern of a plain identifier matches every key that has the
    identifier right after a colon. *)
Lemma reset_pattern_matches a x y :
  glob_plain a = true →
  glob_match ("rate_limit:*:" +:+ a +:+ "*")
    ("rate_limit:" +:+ x +:+ ":" +:+ a +:+ y) = true.
Proof.
  intros Ha. unfold glob_match.
  rewrite !list_ascii_of_string_app.
  cbn [list_ascii_of_string app glob_parse Ascii.eqb Bool.eqb].
  rewrite glob_parse_plain by done.
  cbn [list_ascii_of_string app glob_parse Ascii.eqb Bool.eqb].
  rewrite !glob_tokens_lit.
  apply glob_star_skip. rewrite glob_tokens_lit.
  rewrite glob_tokens_lits. apply glob_star_end.
Qed.

Lemma lookup_foldr_delete (m : gmap string entry) (ks : list string) k :
  foldr delete m ks !! k = if decide (k ∈ ks) then None else m !! k.
Proof.
  induction ks as [|j ks IH]; cbn [foldr].
  - rewrite decide_False; [done|]. apply not_elem_of_nil.
  - destruct (decide (j = k)) as [->|Hne].
    + rewrite lookup_delete_eq, decide_True; [done|]. apply list_elem_of_here.
    + rewrite lookup_delete_ne, IH by done.
      destruct (decide (k ∈ ks)) as [Hin|Hin].
      * rewrite decide_True; [done|]. by apply list_elem_of_further.
      * rewrite decide_False; [done|].
        intros [->|?]%elem_of_cons; done.
Qed.

Lemma matching_keys_elem pattern (db : gmap string entry) k :
  k ∈ filter (λ k, glob_match pattern k = true) (map_to_list db).*1
  ↔ glob_match pattern k = true ∧ is_Some (db !! k).
Proof.
  rewrite list_elem_of_filter, list_elem_of_fmap. split.
  - intros [Hm ([k' e] & -> & Hin)]. split; [done|].
    apply elem_of_map_to_list in Hin. by exists e.
  - intros [Hm [e He]]. split; [done|]. exists (k, e). split; [done|].
    by apply elem_of_map_to_list.
Qed.

Lemma reset_remote_lookup env w a k :
  (_get_redis env (self w)).1 = true →
  server_up env = true →
  server (reset_rate_limit env w a).2 !! k
  = if glob_match ("rate_limit:*:" +:+ a +:+ "*") k then None
    else live (clock env) (server w) !! k.
Proof.
  intros Hc Hup. unfold reset_rate_limit.
  destruct (_get_redis env (self w)) as [c s1]. simpl in Hc. subst c.
  unfold redis_keys. rewrite Hup.
  set (db0 := live (clock env) (server w)).
  set (pattern := "rate_limit:*:" +:+ a +:+ "*").
  set (keys := filter _ _).
  assert (server
            match keys with
            | [] => (Return true, mkW s1 db0)
            | _ :: _ =>
                match redis_delete env keys db0 with
                | (Return _, db') => (Return true, mkW s1 db')
                | (Raise e, db') => (Raise e, mkW s1 db')
                end
            end.2 !! k = foldr delete db0 keys !! k) as ->.
  { destruct keys as [|k0 ks]; [done|].
    unfold redis_delete. rewrite Hup. cbn [snd server].
    rewrite !lookup_foldr_delete. case_decide; [done|].
    apply live_live_lookup. }
  rewrite lookup_foldr_delete. subst keys.
  destruct (glob_match pattern k) eqn:Hm.
  - case_decide as Hin; [done|].
    destruct (db0 !! k) as [e|] eqn:E; [|done].
    exfalso. apply Hin. apply matching_keys_elem. by split; [|exists e].
  - rewrite decide_False; [done|].
    intros [Hm' _]%matching_keys_elem. congruence.
Qed.

Lemma reset_remote_result env w a :
  (_get_redis env (self w)).1 = true →
  server_up env = true →
  (reset_rate_limit env w a).1 = Return true.
Proof.
  intros Hc Hup. unfold reset_rate_limit.
  destruct (_get_redis env (self w)) as [c s1]. simpl in Hc. subst c.
  unfold redis_keys, redis_delete. rewrite Hup.
  by destruct (filter _ _).
Qed.

(** C10, as stated, fails: "[ab]" is a proper prefix of "[ab]c", but the
    pattern [rate_limit:*:[ab]*] asks for an [a] or a [b] after the colon, so
    resetting "[ab]" returns [True] and keeps the record of "[ab]c" (and its
    own). *)
Lemma reset_prefix_with_class_keeps_record : ¬ reset_deletes_prefixed.
Proof.
  intros H.
  specialize (H (remote 0)
                (check_calls fresh_world
                   [(remote 0, "[ab]", None, 1); (remote 0, "[ab]c", None, 1)]).2
                "[ab]" "c" eq_refl eq_refl).
  vm_compute in H. by specialize (H ltac:(discriminate)).
Qed.

Lemma reset_with_class_keeps_own_record :
  let w := (check_calls fresh_world
              [(remote 0, "[ab]", None, 1); (remote 0, "[ab]c", None, 1)]).2 in
  let r := reset_rate_limit (remote 0) w "[ab]" in
  r.1 = Return true
  ∧ zscore (server r.2) (sliding_key "[ab]c") "0:1" = Some 0
  ∧ zscore (server r.2) (sliding_key "[ab]") "0:1" = Some 0.
Proof. vm_compute. repeat split. Qed.

(** C10 (amended): on the remote path with the server answering,
    [reset_rate_limit a] returns [True] and leaves exactly the live keys that
    do not match [rate_limit:*:a*]; and when [a] has none of the characters
    that are special in a pattern, the sliding-window, fixed-window and
    token-bucket records of every identifier [a ++ rest] are gone. *)
Theorem reset_deletes_matching_keys env w a :
  (_get_redis env (self w)).1 = true →
  server_up env = true →
  let r := reset_rate_limit env w a in
  r.1 = Return true
  ∧ (∀ k, server r.2 !! k
          = if glob_match ("rate_limit:*:" +:+ a +:+ "*") k then None
            else live (clock env) (server w) !! k)
  ∧ (glob_plain a = true →
     ∀ rest window_start,
       server r.2 !! sliding_key (a +:+ rest) = None
       ∧ server r.2 !! fixed_key (a +:+ rest) window_start = None
       ∧ server r.2 !! bucket_key (a +:+ rest) = None).
Proof.
  intros Hc Hup r. subst r. split; [by apply reset_remote_result|].
  split; [intros k; by apply reset_remote_lookup|].
  intros Ha rest ws. rewrite !reset_remote_lookup by done.
  pose proof (reset_pattern_matches a "sliding" rest Ha) as H1.
  pose proof (reset_pattern_matches a "fixed" (rest +:+ ":" +:+ pretty ws) Ha) as H2.
  pose proof (reset_pattern_matches a "bucket" rest Ha) as H3.
  change (sliding_key (a +:+ rest))
    with ("rate_limit:" +:+ "sliding" +:+ ":" +:+ a +:+ rest).
  change (bucket_key (a +:+ rest))
    with ("rate_limit:" +:+ "bucket" +:+ ":" +:+ a +:+ rest).
  assert (fixed_key (a +:+ rest) ws
          = "rate_limit:" +:+ "fixed" +:+ ":" +:+ a +:+ rest +:+ ":" +:+ pretty ws)
    as ->.
  { unfold fixed_key. by rewrite <- string_app_assoc. }
  by rewrite H1, H2, H3.
Qed.

Lemma reset_deletes_matching_keys_witness :
  let limit := Some (mkRateLimit 5 60 FIXED_WINDOW) in
  let w := (check_calls fresh_world
              [(remote 0, "ip_10.0.0.1", limit, 1);
               (remote 0, "ip_10.0.0.10", limit, 1)]).2 in
  let r := reset_rate_limit (remote 0) w "ip_10.0.0.1" in
  is_Some (server w !! fixed_key "ip_10.0.0.10" 0)
  ∧ server r.2 !! fixed_key ("ip_10.0.0.1" +:+ "0") 0 = None.
Proof.
  intros limit w r. split.
  - vm_compute. eexists. reflexivity.
  - apply (proj2 (proj2 (reset_deletes_matching_keys (remote 0) w "ip_10.0.0.1"
                           eq_refl eq_refl))).
    reflexivity.
Defined.

(** * Further properties of the engine and of its callers *)

(** ** The keys of the records *)

Lemma pretty_N_char_not_colon x : pretty_N_char x ≠ ":"%char.
Proof. unfold pretty_N_char. repeat case_match; discriminate. Qed.

Lemma pretty_N_go_colon_free x s : colon_free s → colon_free (pretty_N_go x s).
Proof.
  revert s. induction (N.lt_wf_0 x) as [x _ IH]; intros s Hs.
  destruct (decide (0 < x)%N) as [Hx|Hx].
  - rewrite pretty_N_go_step by done. apply IH.
    + apply N.div_lt; [done|]. reflexivity.
    + split; [apply pretty_N_char_not_colon|done].
  - assert (x = 0%N) as -> by lia. by rewrite pretty_N_go_0.
Qed.

Lemma pretty_N_colon_free (x : N) : colon_free (pretty x).
Proof.
  unfold pretty, pretty_N. case_decide.
  - simpl. split; [discriminate|done].
  - by apply pretty_N_go_colon_free.
Qed.

Lemma pretty_Z_colon_free (x : Z) : colon_free (pretty x).
Proof.
  unfold pretty, pretty_Z. destruct x as [|p|p].
  - simpl. split; [discriminate|done].
  - apply pretty_N_colon_free.
  - change (colon_free (String "-" (pretty (N.pos p)))).
    split; [discriminate|apply pretty_N_colon_free].
Qed.

Lemma colon_free_not_app (p b q : string) :
  colon_free p → p ≠ b +:+ ":" +:+ q.
Proof.
  revert b. induction p as [|c p IH]; intros b Hp E.
  - destruct b; discriminate E.
  - destruct Hp as [Hc Hp]. destruct b as [|c' b].
    + change (String c p = String ":" q) in E. congruence.
    + change (String c p = String c' (b +:+ ":" +:+ q)) in E.
      injection E as -> E. by apply (IH b).
Qed.

Lemma colon_suffix_inj (a b p q : string) :
  colon_free p → colon_free q →
  a +:+ ":" +:+ p = b +:+ ":" +:+ q → a = b ∧ p = q.
Proof.
  intros Hp Hq. revert b. induction a as [|c a IH]; intros b E.
  - destruct b as [|c' b].
    + change (String ":" p = String ":" q) in E. by injection E.
    + change (String ":" p = String c' (b +:+ ":" +:+ q)) in E.
      injection E as _ E. by apply colon_free_not_app in E.
  - destruct b as [|c' b].
    + change (String c (a +:+ ":" +:+ p) = String ":" q) in E.
      injection E as _ E. symmetry in E. by apply colon_free_not_app in E.
    + change (String c (a +:+ ":" +:+ p) = String c' (b +:+ ":" +:+ q)) in E.
      injection E as -> E. destruct (IH b E) as [-> ->]. done.
Qed.

Lemma sliding_key_inj a b : sliding_key a = sliding_key b → a = b.
Proof. unfold sliding_key. intros H. by simplify_eq/=. Qed.

Lemma bucket_key_inj a b : bucket_key a = bucket_key b → a = b.
Proof. unfold bucket_key. intros H. by simplify_eq/=. Qed.

Lemma fixed_key_inj a b w1 w2 :
  fixed_key a w1 = fixed_key b w2 → a = b ∧ w1 = w2.
Proof.
  unfold fixed_key. intros H.
  assert (a +:+ ":" +:+ pretty w1 = b +:+ ":" +:+ pretty w2) as E
    by (by simplify_eq/=).
  apply colon_suffix_inj in E as [-> E]; [|apply pretty_Z_colon_free..].
  split; [done|]. by apply (inj pretty).
Qed.

Lemma fixed_key_ne_bucket a b ws : fixed_key a ws ≠ bucket_key b.
Proof. unfold fixed_key, bucket_key. simpl. discriminate. Qed.

(** ** Records on the server are per identifier and per strategy *)

Lemma check_remote env w identifier limit cost :
  (_get_redis env (self w)).1 = true →
  check_rate_limit env w identifier limit cost
  = (raise_if_exceeded identifier (default (default_limit (self w)) limit)
       (_check_redis_rate_limit (_get_redis env (self w)).2 env identifier
          (default (default_limit (self w)) limit) cost (server w)).1,
     mkW (_get_redis env (self w)).2
       (_check_redis_rate_limit (_get_redis env (self w)).2 env identifier
          (default (default_limit (self w)) limit) cost (server w)).2).
Proof.
  intros Hc. unfold check_rate_limit, raise_if_exceeded.
  destruct (_get_redis env (self w)) as [c s1]. simpl in Hc. subst c.
  cbn [fst snd].
  destruct (_check_redis_rate_limit _ _ _ _ _ _) as [[info|e] db]; [|done].
  cbn [fst snd]. by destruct (RateInfo.exceeded info).
Qed.

Lemma check_fallback env w identifier limit cost :
  (_get_redis env (self w)).1 = false →
  check_rate_limit env w identifier limit cost
  = (raise_if_exceeded identifier (default (default_limit (self w)) limit)
       (Return (_check_memory_rate_limit (_get_redis env (self w)).2 env identifier
                  (default (default_limit (self w)) limit) cost).1),
     mkW (_check_memory_rate_limit (_get_redis env (self w)).2 env identifier
            (default (default_limit (self w)) limit) cost).2
       (server w)).
Proof.
  intros Hc. unfold check_rate_limit, raise_if_exceeded.
  destruct (_get_redis env (self w)) as [c s1]. simpl in Hc. subst c.
  cbn [fst snd].
  destruct (_check_memory_rate_limit _ _ _ _ _) as [info s2]. cbn [fst snd].
  by destruct (RateInfo.exceeded info).
Qed.

Lemma sliding_check_local s1 s2 env identifier limit cost db1 db2 :
  enable_burst s1 = enable_burst s2 →
  burst_multiplier s1 = burst_multiplier s2 →
  live (clock env) db1 !! sliding_key identifier
  = live (clock env) db2 !! sliding_key identifier →
  (_sliding_window_redis s1 env identifier limit cost (clock env) db1).1
  = (_sliding_window_redis s2 env identifier limit cost (clock env) db2).1.
Proof.
  intros Hb Hm H. unfold _sliding_window_redis.
  destruct (server_up env) eqn:Hup.
  2:{ by rewrite !pipeline_execute_down. }
  rewrite !pipeline_execute_up by done. cbn [fst snd].
  edestruct (run_commands_local (clock env) (sliding_key identifier))
    as [E _]; [|exact H|rewrite E].
  { repeat constructor. }
  rewrite Hb, Hm. by destruct (existsb _ _).
Qed.

Lemma check_redis_local s1 s2 env identifier limit cost db1 db2 :
  enable_burst s1 = enable_burst s2 →
  burst_multiplier s1 = burst_multiplier s2 →
  (∀ k, strategy_key (strategy limit) identifier k →
        live (clock env) db1 !! k = live (clock env) db2 !! k) →
  (_check_redis_rate_limit s1 env identifier limit cost db1).1
  = (_check_redis_rate_limit s2 env identifier limit cost db2).1.
Proof.
  intros Hb Hm H. unfold _check_redis_rate_limit.
  destruct (strategy limit); cbn in H.
  - apply fixed_check_local. intros ws. apply H. by exists ws.
  - apply sliding_check_local; [done..|]. by apply H.
  - apply token_check_local. by apply H.
Qed.

Lemma check_redis_frame s env identifier limit cost db k :
  ¬ strategy_key (strategy limit) identifier k →
  live (clock env) (_check_redis_rate_limit s env identifier limit cost db).2 !! k
  = live (clock env) db !! k.
Proof.
  intros Hk.
  assert (∀ cmds, Forall (λ c, key_of c ≠ k) cmds →
            live (clock env) (pipeline_execute env cmds db).2 !! k
            = live (clock env) db !! k) as Hpipe.
  { intros cmds Hc. destruct (server_up env) eqn:Hup.
    - rewrite pipeline_execute_up by done. cbn [snd].
      rewrite lookup_live, run_commands_lookup_ne, <- lookup_live by done.
      apply live_live_lookup.
    - by rewrite pipeline_execute_down. }
  unfold _check_redis_rate_limit. destruct (strategy limit); cbn in Hk.
  - assert (∀ ws, k ≠ fixed_key identifier ws) as Hf
      by (intros ws ->; apply Hk; by exists ws).
    unfold _fixed_window_redis. destruct (py_floordiv _ _) as [q|e]; [|done].
    match goal with
    | |- context [pipeline_execute env ?cmds db] =>
        specialize (Hpipe cmds); destruct (pipeline_execute env cmds db) as [[rs|e] d]
    end; cbn [snd] in *; apply Hpipe; repeat constructor; simpl; congruence.
  - unfold _sliding_window_redis.
    match goal with
    | |- context [pipeline_execute env ?cmds db] =>
        specialize (Hpipe cmds); destruct (pipeline_execute env cmds db) as [[rs|e] d]
    end; cbn [snd] in *; apply Hpipe; repeat constructor; simpl; congruence.
  - unfold _token_bucket_redis. destruct (py_truediv _ _) as [rate|e]; [|done].
    unfold execute_command. destruct (server_up env); [|done].
    match goal with
    | |- context [exec ?now ?c ?d] =>
        pose proof (exec_lookup_ne now c d k) as E;
        destruct (exec now c d) as [r1 d1]
    end.
    simpl in E.
    assert (live (clock env) d1 !! k = live (clock env) db !! k) as E'.
    { rewrite lookup_live, E, <- lookup_live by congruence. apply live_live_lookup. }
    destruct (is_error r1); [done|]. cbn [fst snd].
    destruct (negb _); cbn [fst snd].
    + by destruct (py_truediv _ rate).
    + destruct (py_truediv _ rate); [|done]. by destruct (py_truediv _ rate).
Qed.

Lemma strategy_key_disjoint s1 s2 a b k :
  a ≠ b ∨ s1 ≠ s2 → strategy_key s1 a k → ¬ strategy_key s2 b k.
Proof.
  intros Hne. destruct s1, s2; cbn; intros H1 H2;
    repeat match goal with H : ∃ _, _ |- _ => destruct H as [? H] end;
    rewrite H1 in H2;
    first
      [ apply fixed_key_inj in H2 as [? _]; destruct Hne; congruence
      | apply sliding_key_inj in H2; destruct Hne; congruence
      | apply bucket_key_inj in H2; destruct Hne; congruence
      | by apply sliding_key_ne_fixed in H2
      | by apply sliding_key_ne_bucket in H2
      | by apply fixed_key_ne_bucket in H2
      | symmetry in H2; by apply sliding_key_ne_fixed in H2
      | symmetry in H2; by apply sliding_key_ne_bucket in H2
      | symmetry in H2; by apply fixed_key_ne_bucket in H2 ].
Qed.

Lemma live_later t1 t2 (db : gmap string entry) k :
  t1 ≤ t2 → live t2 db !! k = live t1 db !! k ≫= alive t2.
Proof. intros H. rewrite !lookup_live. by rewrite alive_alive. Qed.

Lemma check_after_unrelated_check env_a env_b w a b limit_a limit_b cost_a cost_b :
  a ≠ b
  ∨ strategy (default (default_limit (self w)) limit_a)
    ≠ strategy (default (default_limit (self w)) limit_b) →
  redis_installed env_a = redis_installed env_b →
  from_url_ok env_a = from_url_ok env_b →
  clock env_a ≤ clock env_b →
  (_get_redis env_b (self w)).1 = true →
  (check_rate_limit env_b
     (check_rate_limit env_a w a limit_a cost_a).2 b limit_b cost_b).1
  = (check_rate_limit env_b w b limit_b cost_b).1.
Proof.
  intros Hne Hi Hu Hle Hcb.
  assert ((_get_redis env_a (self w)).1 = true) as Hca.
  { revert Hcb. unfold _get_redis. rewrite Hi, Hu. by repeat case_match. }
  rewrite (check_remote env_a) by done. cbn [snd].
  rewrite !(check_remote env_b); cbn [self server fst snd].
  2: done.
  2:{ by rewrite get_redis_again. }
  pose proof (get_redis_pool env_a (self w)) as Hp1.
  pose proof (get_redis_pool env_b (_get_redis env_a (self w)).2) as Hp2.
  pose proof (get_redis_pool env_b (self w)) as Hp3.
  set (s1 := (_get_redis env_a (self w)).2) in *.
  set (s2 := (_get_redis env_b s1).2) in *.
  set (s3 := (_get_redis env_b (self w)).2) in *.
  assert (set_redis_pool s2 = set_redis_pool s3) as Hs by congruence.
  assert (default_limit s1 = default_limit (self w)) as ->
    by apply (f_equal default_limit Hp1).
  f_equal.
  apply check_redis_local.
  - apply (f_equal enable_burst Hs).
  - apply (f_equal burst_multiplier Hs).
  - intros k Hk. rewrite !(live_later (clock env_a) (clock env_b)) by done.
    f_equal. apply check_redis_frame.
    intros Hk'. by apply (strategy_key_disjoint _ _ _ _ _ Hne Hk').
Qed.

(** X1: On the server every identifier has its own keys: a check of one
    identifier does not change the result of a later check of another. *)
Theorem remote_checks_are_isolated env_a env_b w a b limit_a limit_b cost_a cost_b :
  a ≠ b →
  redis_installed env_a = redis_installed env_b →
  from_url_ok env_a = from_url_ok env_b →
  clock env_a ≤ clock env_b →
  (_get_redis env_b (self w)).1 = true →
  (check_rate_limit env_b
     (check_rate_limit env_a w a limit_a cost_a).2 b limit_b cost_b).1
  = (check_rate_limit env_b w b limit_b cost_b).1.
Proof. intros Hne. apply check_after_unrelated_check. by left. Qed.

Lemma remote_checks_are_isolated_witness :
  (check_rate_limit (remote 5)
     (check_rate_limit (remote 0) fresh_world "user_1" None 1).2 "user_2" None 1).1
  = (check_rate_limit (remote 5) fresh_world "user_2" None 1).1.
Proof.
  apply (remote_checks_are_isolated (remote 0) (remote 5) fresh_world
           "user_1" "user_2" None None 1 1);
    [discriminate|reflexivity|reflexivity|simpl; lia|reflexivity].
Defined.

(** X2: On the server the three strategies keep separate records of one
    identifier: a check under one strategy does not count against a later
    check of the same identifier under another. *)
Theorem strategies_keep_separate_records env_a env_b w identifier limit_a limit_b
    cost_a cost_b :
  strategy limit_a ≠ strategy limit_b →
  redis_installed env_a = redis_installed env_b →
  from_url_ok env_a = from_url_ok env_b →
  clock env_a ≤ clock env_b →
  (_get_redis env_b (self w)).1 = true →
  (check_rate_limit env_b
     (check_rate_limit env_a w identifier (Some limit_a) cost_a).2
     identifier (Some limit_b) cost_b).1
  = (check_rate_limit env_b w identifier (Some limit_b) cost_b).1.
Proof. intros Hne. apply check_after_unrelated_check. by right. Qed.

Lemma strategies_keep_separate_records_witness :
  let fixed := mkRateLimit 1 60 FIXED_WINDOW in
  let sliding := mkRateLimit 1 60 SLIDING_WINDOW in
  (check_rate_limit (remote 5)
     (check_rate_limit (remote 0) fresh_world "user_1" (Some fixed) 1).2
     "user_1" (Some sliding) 1).1
  = (check_rate_limit (remote 5) fresh_world "user_1" (Some sliding) 1).1.
Proof.
  apply (strategies_keep_separate_records (remote 0) (remote 5) fresh_world "user_1"
           (mkRateLimit 1 60 FIXED_WINDOW) (mkRateLimit 1 60 SLIDING_WINDOW) 1 1);
    [discriminate|reflexivity|reflexivity|simpl; lia|reflexivity].
Defined.

(** ** The fallback store *)

Lemma get_redis_memory_store env s :
  _memory_store (_get_redis env s).2 = _memory_store s.
Proof. unfold _get_redis. by repeat case_match. Qed.

Lemma get_redis_default_limit env s :
  default_limit (_get_redis env s).2 = default_limit s.
Proof. unfold _get_redis. by repeat case_match. Qed.

Lemma memory_check_default_limit s env identifier limit cost :
  default_limit (_check_memory_rate_limit s env identifier limit cost).2
  = default_limit s.
Proof.
  unfold _check_memory_rate_limit, _cleanup_memory_store. cbn [snd].
  destruct s. by destruct (bool_decide (_ > 1000)).
Qed.

Lemma check_default_limit env w identifier limit cost :
  default_limit (self (check_rate_limit env w identifier limit cost).2)
  = default_limit (self w).
Proof.
  destruct ((_get_redis env (self w)).1) eqn:Hc.
  - rewrite check_remote by done. cbn [snd self]. apply get_redis_default_limit.
  - rewrite check_fallback by done. cbn [snd self].
    rewrite memory_check_default_limit. apply get_redis_default_limit.
Qed.

Lemma filter_length_le (P : Z → Prop) `{∀ x, Decision (P x)} (l : list Z) :
  (length (filter P l) ≤ length l)%nat.
Proof. apply length_filter. Qed.

Lemma memory_check_bounded n s env identifier limit cost :
  0 ≤ n →
  requests limit ≤ n →
  memory_bounded n s →
  memory_bounded n (_check_memory_rate_limit s env identifier limit cost).2.
Proof.
  intros Hn0 Hn Hb i d. unfold _check_memory_rate_limit. cbn [snd].
  set (s0 := if bool_decide (_ > 1000) then _ else s).
  assert (memory_bounded n s0) as Hb0.
  { subst s0. case_bool_decide; [|done]. intros j e.
    unfold _cleanup_memory_store. destruct s; cbn.
    intros [E _]%map_lookup_filter_Some. by apply (Hb j). }
  destruct s0 as [u dl eb bm pool store ci]. cbn [_memory_store set_memory_store].
  unfold memory_bounded in Hb0. cbn [_memory_store] in Hb0.
  destruct (decide (i = identifier)) as [->|Hne].
  2:{ rewrite lookup_insert_ne by done. apply Hb0. }
  rewrite lookup_insert_eq. intros [= <-]. cbn [UserData.requests].
  set (old := UserData.requests (default _ (store !! identifier))).
  assert (Z.of_nat (length old) ≤ n) as Hold.
  { subst old. destruct (store !! identifier) as [d|] eqn:E; cbn.
    - by apply (Hb0 identifier).
    - lia. }
  pose proof (filter_length_le (λ req, clock env - window limit ≤ req) old) as Hf.
  case_bool_decide as Hex; [lia|].
  rewrite length_app, length_replicate. lia.
Qed.

Lemma memory_bounded_empty n s : _memory_store s = ∅ → memory_bounded n s.
Proof. intros E i d. by rewrite E, lookup_empty. Qed.

(** X3: However the calls mix identifiers, costs, outages and limits, no record
    of the fallback store grows beyond the largest limit in use. *)
Theorem fallback_store_bounded n w cs :
  0 ≤ n →
  memory_bounded n (self w) →
  Forall (λ c : call, requests (default (default_limit (self w)) c.1.2) ≤ n) cs →
  memory_bounded n (self (check_calls w cs).2).
Proof.
  intros Hn0. revert w.
  induction cs as [|[[[env identifier] limit] cost] cs IH]; intros w Hb Hcs.
  { done. }
  apply Forall_cons in Hcs as [Hc Hcs]. cbn [check_calls].
  pose proof (check_default_limit env w identifier limit cost) as Hd.
  assert (memory_bounded n (self (check_rate_limit env w identifier limit cost).2))
    as Hb1.
  { destruct ((_get_redis env (self w)).1) eqn:Hr.
    - rewrite check_remote by done. cbn [snd self]. intros i d.
      rewrite get_redis_memory_store. apply Hb.
    - rewrite check_fallback by done. cbn [snd self].
      apply memory_check_bounded; [done|exact Hc|]. intros i d.
      rewrite get_redis_memory_store. apply Hb. }
  destruct (check_rate_limit env w identifier limit cost) as [r w1].
  cbn [snd] in *. specialize (IH w1 Hb1).
  destruct (check_calls w1 cs) as [rs w2]. cbn [snd] in *.
  apply IH. by rewrite Hd.
Qed.

Lemma fallback_store_bounded_witness :
  let limit := Some (mkRateLimit 2 60 SLIDING_WINDOW) in
  memory_bounded 2
    (self (check_calls fresh_world
             [(fallback 0, "user_1", limit, 1); (fallback 0, "user_1", limit, 1);
              (fallback 1, "user_1", limit, 1); (fallback 2, "user_2", limit, 2)]).2).
Proof.
  apply (fallback_store_bounded 2 fresh_world);
    [lia|by apply memory_bounded_empty|repeat constructor; simpl; lia].
Defined.

(** X4: A fallback check of one identifier leaves the record of any other as it
    was, unless the store holds more than 1000 records and that record was
    idle for over an hour: then it is dropped. *)
Theorem fallback_check_keeps_other_records env w a b limit cost :
  a ≠ b →
  (_get_redis env (self w)).1 = false →
  _memory_store (self (check_rate_limit env w a limit cost).2) !! b
  = d ← _memory_store (self w) !! b;
    if bool_decide (Z.of_nat (size (_memory_store (self w))) > 1000
                    ∧ UserData.last_access d < clock env - 3600)
    then None else Some d.
Proof.
  intros Hne Hc. rewrite check_fallback by done. cbn [snd self].
  unfold _check_memory_rate_limit. cbn [snd].
  rewrite get_redis_memory_store.
  pose proof (get_redis_memory_store env (self w)) as Hm.
  destruct (_get_redis env (self w)).2 as [u dl eb bm pool store ci].
  cbn in Hm. subst store.
  case_bool_decide as Hsz; cbn [_cleanup_memory_store set_memory_store _memory_store].
  - rewrite lookup_insert_ne by done.
    destruct (_memory_store (self w) !! b) as [d|] eqn:E; cbn.
    + case_bool_decide as Hd.
      * apply map_lookup_filter_None. right. intros d' E'. cbn.
        rewrite E in E'. injection E' as <-. lia.
      * apply map_lookup_filter_Some. split; [done|]. cbn. intros ?. apply Hd. done.
    + apply map_lookup_filter_None. by left.
  - rewrite lookup_insert_ne by done.
    destruct (_memory_store (self w) !! b) as [d|]; cbn; [|done].
    case_bool_decide as Hd; [|done]. by destruct Hd.
Qed.

Lemma fallback_check_keeps_other_records_witness :
  let w := (check_rate_limit (fallback 0) fresh_world "user_2" None 1).2 in
  _memory_store (self (check_rate_limit (fallback 7200) w "user_1" None 1).2) !! "user_2"
  = Some (UserData.mk [0] 0).
Proof.
  intros w.
  rewrite (fallback_check_keeps_other_records (fallback 7200) w "user_1" "user_2" None 1);
    [reflexivity|discriminate|reflexivity].
Defined.

(** X5: With a window of at most an hour, the fallback decision is the count of
    the identifier's timestamps inside the window: the periodic cleanup
    never changes it. *)
Theorem fallback_counts_window s env identifier limit cost :
  window limit ≤ 3600 →
  (∀ d, _memory_store s !! identifier = Some d → record_ordered d) →
  let n := Z.of_nat (length (filter (λ req, clock env - window limit ≤ req)
                               (memory_requests s identifier))) in
  let exceeded := bool_decide (n + cost > requests limit) in
  (_check_memory_rate_limit s env identifier limit cost).1
  = RateInfo.mk exceeded (requests limit) (0 `max` (requests limit - (n + cost)))
      (PyInt (clock env + window limit))
      (if exceeded then window limit else 0) "memory_fallback".
Proof.
  intros Hw Hord n exceeded. unfold _check_memory_rate_limit. cbn [fst].
  set (s0 := if bool_decide (_ > 1000) then _ else s).
  assert (filter (λ req, clock env - window limit ≤ req)
            (UserData.requests
               (default (UserData.mk [] (clock env)) (_memory_store s0 !! identifier)))
          = filter (λ req, clock env - window limit ≤ req)
              (memory_requests s identifier)) as ->; [|done].
  unfold memory_requests. subst s0. case_bool_decide; [|by destruct (_ !! _)].
  unfold _cleanup_memory_store. destruct s as [u dl eb bm pool store ci].
  cbn [_memory_store set_memory_store] in *.
  destruct (store !! identifier) as [d|] eqn:E; cbn.
  2:{ by rewrite (proj2 (map_lookup_filter_None _ _ _) (or_introl E)). }
  destruct (decide (UserData.last_access d < clock env - 3600)) as [Hold|Hnew].
  - rewrite (proj2 (map_lookup_filter_None _ store identifier)).
    2:{ right. intros d' E'. rewrite E in E'. injection E' as <-. cbn. tauto. }
    cbn. symmetry. specialize (Hord d eq_refl). unfold record_ordered in Hord.
    induction Hord as [|t l Ht _ IH]; [done|].
    rewrite filter_cons_False by lia. exact IH.
  - by rewrite (proj2 (map_lookup_filter_Some _ store identifier d) (conj E Hnew)).
Qed.

Lemma fallback_counts_window_witness :
  let s := self (check_rate_limit (fallback 0) fresh_world "user_1" None 1).2 in
  let limit := mkRateLimit 1 60 SLIDING_WINDOW in
  (_check_memory_rate_limit s (fallback 30) "user_1" limit 1).1
  = RateInfo.mk true 1 0 (PyInt 90) 60 "memory_fallback".
Proof.
  intros s limit.
  apply (fallback_counts_window s (fallback 30) "user_1" limit 1); [simpl; lia|].
  intros d H. vm_compute in H. injection H as <-.
  constructor; [simpl; lia|constructor].
Defined.

(** ** Fixed window *)

(** X6: Every fixed-window check, allowed or denied, adds its cost to the
    counter of the current window, and the decision compares the new
    counter with the quota. The window is not zero and above -60 seconds,
    so that the expiry of [window + 60] seconds keeps the key. *)
Theorem fixed_window_counts_every_check s env identifier limit cost db n :
  server_up env = true →
  window limit ≠ 0 →
  - 60 < window limit →
  let window_start := clock env `div` window limit * window limit in
  let key := fixed_key identifier window_start in
  stored_count (live (clock env) db) key = Some n →
  int64_ok cost = true →
  int64_ok (n + cost) = true →
  let r := _fixed_window_redis s env identifier limit cost (clock env) db in
  let exceeded := bool_decide (n + cost > requests limit) in
  r.1 = Return (RateInfo.mk exceeded (requests limit)
                  (0 `max` (requests limit - (n + cost)))
                  (PyInt (window_start + window limit))
                  (if exceeded then window_start + window limit - clock env else 0)
                  (strategy_value (strategy limit)))
  ∧ stored_count r.2 key = Some (n + cost).
Proof.
  intros Hup Hw Hw60 window_start key Hn Hc Hnc r exceeded. subst r.
  unfold _fixed_window_redis, py_floordiv. rewrite decide_False by done.
  fold window_start. fold key. lazy zeta.
  rewrite pipeline_execute_up by done.
  unfold stored_count in *. unfold run_commands, exec.
  destruct (live (clock env) db !! key) as [[[zs|m|tk lr] ex]|] eqn:E;
    try done; injection Hn as <-.
  - repeat progress (rewrite ?E, ?Hc, ?Hnc; cbn [andb]; run_step).
    cbn [fst snd nth reply_int existsb is_error orb].
    by rewrite lookup_insert_eq.
  - rewrite Z.add_0_l in *. subst exceeded. rewrite !Z.add_0_l.
    repeat progress (rewrite ?E, ?Hc; run_step).
    cbn [fst snd nth reply_int existsb is_error orb].
    by rewrite lookup_insert_eq.
Qed.

Lemma fixed_window_counts_every_check_witness :
  let limit := mkRateLimit 5 60 FIXED_WINDOW in
  let r := _fixed_window_redis RateLimiter_default (remote 130) "user_1" limit 7 130 ∅ in
  r.1 = Return (RateInfo.mk true 5 0 (PyInt 180) 50 "fixed_window")
  ∧ stored_count r.2 (fixed_key "user_1" 120) = Some 7.
Proof.
  apply (fixed_window_counts_every_check RateLimiter_default (remote 130) "user_1"
           (mkRateLimit 5 60 FIXED_WINDOW) 7 ∅ 0);
    [reflexivity|simpl; lia|simpl; lia|reflexivity|reflexivity|reflexivity].
Defined.

(** ** How long a denied caller is told to wait *)

Lemma py_int_nonneg (x : Q) : (0 <= x)%Q → 0 ≤ py_int x.
Proof.
  destruct x as [n d]. unfold Qle, py_int. simpl. intros H.
  apply Z.quot_pos; lia.
Qed.

Lemma py_int_le_of_lt (x : Q) (c : Z) : (x < inject_Z c)%Q → py_int x ≤ c.
Proof.
  destruct x as [n d]. unfold Qlt, py_int. simpl. intros H.
  pose proof (Z.quot_rem' n (Z.pos d)) as E.
  destruct (Z_le_gt_dec 0 n) as [Hn|Hn].
  - pose proof (Z.rem_bound_pos n (Z.pos d) Hn ltac:(lia)). nia.
  - pose proof (Z.rem_bound_pos_neg n (Z.pos d) ltac:(lia) ltac:(lia)). nia.
Qed.

Lemma token_script_reply now key capacity rate cost ct db :
  let r := (token_bucket_script now key capacity rate (inject_Z cost) ct db).1 in
  r = RError
  ∨ (∃ remaining, r = RIntegers [1; remaining])
  ∨ (∃ remaining, r = RIntegers [0; remaining] ∧ remaining ≤ cost).
Proof.
  unfold token_bucket_script.
  assert (∀ b : option (Q * Z),
    let tokens := Qmin capacity
      (from_option fst capacity b
       + inject_Z (ct - from_option snd ct b) * rate)%Q in
    (∃ remaining,
        RIntegers [if Qle_bool (inject_Z cost) tokens then 1 else 0;
                   py_int (if Qle_bool (inject_Z cost) tokens
                           then (tokens - inject_Z cost)%Q else tokens)]
        = RIntegers [1; remaining])
    ∨ (∃ remaining,
        RIntegers [if Qle_bool (inject_Z cost) tokens then 1 else 0;
                   py_int (if Qle_bool (inject_Z cost) tokens
                           then (tokens - inject_Z cost)%Q else tokens)]
        = RIntegers [0; remaining] ∧ remaining ≤ cost)) as Hrun.
  { intros b tokens. destruct (Qle_bool (inject_Z cost) tokens) eqn:Hc.
    - left. by eexists.
    - right. eexists. split; [done|]. apply py_int_le_of_lt.
      apply Qnot_le_lt. intros Hle. apply Qle_bool_iff in Hle. congruence. }
  destruct (db !! key) as [[[zs|n|tk lr] ex]|]; cbn [fst]; auto.
Qed.

Lemma token_check_retry_after s env identifier limit cost db info db' :
  0 < requests limit → 0 < window limit →
  _token_bucket_redis s env identifier limit cost (clock env) db = (Return info, db') →
  RateInfo.exceeded info = true →
  1 ≤ RateInfo.retry_after info.
Proof.
  intros Hr Hw. pose proof (refill_rate_pos _ _ Hr Hw) as Hrate.
  unfold _token_bucket_redis, py_truediv.
  rewrite (Qeq_bool_inject_pos _ Hw), (Qeq_bool_pos _ Hrate).
  unfold execute_command. destruct (server_up env); [|done].
  unfold exec.
  match goal with
  | |- context [token_bucket_script ?a ?b ?c ?d (inject_Z cost) ?e ?f] =>
      pose proof (token_script_reply a b c d cost e f) as Hrep;
      destruct (token_bucket_script a b c d (inject_Z cost) e f) as [r d1]
  end.
  cbn [fst] in Hrep.
  destruct Hrep as [->|[[rem ->]|(rem & -> & Hrem)]]; cbn; try done.
  - intros [= <- _]. done.
  - intros [= <- _] _. cbn.
    assert (0 ≤ py_int (inject_Z (cost - rem)
                        / (inject_Z (requests limit) / inject_Z (window limit))));
      [|lia].
    apply py_int_nonneg. apply Qle_shift_div_l; [done|].
    rewrite Qmult_0_l. change 0%Q with (inject_Z 0). rewrite <- Zle_Qle. lia.
Qed.

Lemma fixed_check_retry_after s env identifier limit cost db info db' :
  0 < window limit →
  _fixed_window_redis s env identifier limit cost (clock env) db = (Return info, db') →
  RateInfo.exceeded info = true →
  1 ≤ RateInfo.retry_after info ≤ window limit.
Proof.
  intros Hw. unfold _fixed_window_redis, py_floordiv.
  rewrite decide_False by lia.
  destruct (pipeline_execute _ _ _) as [[rs|e] d]; [|done].
  intros [= <- _]. cbn. intros ->.
  pose proof (Z.mul_div_le (clock env) (window limit) Hw).
  pose proof (Z.mul_succ_div_gt (clock env) (window limit) Hw). lia.
Qed.

Lemma sliding_check_retry_after s env identifier limit cost db info db' :
  _sliding_window_redis s env identifier limit cost (clock env) db = (Return info, db') →
  RateInfo.exceeded info = true →
  RateInfo.retry_after info = window limit.
Proof.
  unfold _sliding_window_redis.
  destruct (pipeline_execute _ _ _) as [[rs|e] d]; [|done].
  intros [= <- _]. cbn. by intros ->.
Qed.

Lemma check_redis_raises s env identifier limit cost db e db' :
  _check_redis_rate_limit s env identifier limit cost db = (Raise e, db') →
  store_error e.
Proof.
  unfold _check_redis_rate_limit. intros E. destruct (strategy limit).
  - by apply fixed_window_raises in E.
  - unfold _sliding_window_redis in E. destruct (server_up env) eqn:Hup.
    + rewrite pipeline_execute_up in E by done. cbn in E.
      destruct (existsb _ _); simplify_eq. right. by right.
    + rewrite pipeline_execute_down in E by done. simplify_eq. right. by left.
  - unfold _token_bucket_redis, py_truediv, execute_command in E.
    unfold store_error. repeat case_match; simplify_eq; auto.
Qed.

Lemma denied_retry_after env w identifier limit cost retry_after :
  let lim := default (default_limit (self w)) limit in
  0 < requests lim → 0 < window lim →
  denied_with retry_after (check_rate_limit env w identifier limit cost).1 →
  1 ≤ retry_after
  ∧ ((_get_redis env (self w)).1 = false ∨ strategy lim ≠ TOKEN_BUCKET →
     retry_after ≤ window lim).
Proof.
  intros lim Hr Hw (msg & l & wd & Hd).
  destruct ((_get_redis env (self w)).1) eqn:Hc.
  - rewrite check_remote in Hd by done. cbn [fst] in Hd. fold lim in Hd.
    destruct (_check_redis_rate_limit _ _ _ _ _ _) as [[info|e] db'] eqn:E;
      cbn [fst raise_if_exceeded] in Hd.
    2:{ apply check_redis_raises in E. destruct E as [?|[?|?]]; simplify_eq. }
    destruct (RateInfo.exceeded info) eqn:Hex; [|done].
    injection Hd as _ <- _ _.
    unfold _check_redis_rate_limit in E. destruct (strategy lim) eqn:Hs.
    + pose proof (fixed_check_retry_after _ _ _ _ _ _ _ _ Hw E Hex). lia.
    + rewrite (sliding_check_retry_after _ _ _ _ _ _ _ _ E Hex). lia.
    + pose proof (token_check_retry_after _ _ _ _ _ _ _ _ Hr Hw E Hex).
      split; [done|]. intros [?|?]; done.
  - rewrite check_fallback in Hd by done. cbn [fst raise_if_exceeded] in Hd.
    fold lim in Hd. unfold _check_memory_rate_limit in Hd. cbn [fst] in Hd.
    cbn [RateInfo.exceeded RateInfo.retry_after] in Hd.
    destruct (bool_decide (_ > requests lim)); [|done].
    injection Hd as _ <- _ _. lia.
Qed.

(** X7: Whatever the strategy and the path, with a positive quota and a positive
    window a denied caller is told to wait at least one second; under the
    window strategies and on the fallback path never longer than the
    window. *)
Theorem denial_retry_after_bounds env w identifier limit cost retry_after :
  let lim := default (default_limit (self w)) limit in
  0 < requests lim → 0 < window lim →
  denied_with retry_after (check_rate_limit env w identifier limit cost).1 →
  1 ≤ retry_after
  ∧ ((_get_redis env (self w)).1 = false ∨ strategy lim ≠ TOKEN_BUCKET →
     retry_after ≤ window lim).
Proof. apply denied_retry_after. Qed.

Lemma denial_retry_after_bounds_witness :
  let limit := Some (mkRateLimit 1 60 FIXED_WINDOW) in
  let w := (check_rate_limit (remote 130) fresh_world "user_1" limit 1).2 in
  1 ≤ 40
  ∧ ((_get_redis (remote 140) (self w)).1 = false
     ∨ strategy (default (default_limit (self w)) limit) ≠ TOKEN_BUCKET → 40 ≤ 60).
Proof.
  intros limit w.
  apply (denial_retry_after_bounds (remote 140) w "user_1" limit 1 40);
    [simpl; lia|simpl; lia|].
  vm_compute. by do 3 eexists.
Defined.

(** ** Sliding window on the server *)

Lemma sliding_check_result s env identifier limit cost db :
  server_up env = true →
  zset_or_absent (live (clock env) db) (sliding_key identifier) →
  let n := Z.of_nat (size (window_members env limit db identifier)) in
  let exceeded := bool_decide (n + cost > max_requests s limit) in
  (_sliding_window_redis s env identifier limit cost (clock env) db).1
  = Return (RateInfo.mk exceeded (requests limit)
              (0 `max` (requests limit - (n + cost)))
              (PyInt (clock env + window limit))
              (if exceeded then window limit else 0)
              (strategy_value (strategy limit))).
Proof.
  intros Hup Hz n exceeded. subst n exceeded.
  unfold _sliding_window_redis. rewrite pipeline_execute_up by done.
  unfold window_members, zset_or_absent, max_requests in *.
  unfold run_commands, exec.
  set (key := sliding_key identifier) in *.
  destruct (live (clock env) db !! key) as [[[zs|m|tk lr] ex]|] eqn:E; try done.
  - repeat progress (rewrite ?E; run_step).
    destruct (decide (filter _ zs = ∅)) as [Hemp|Hne];
      repeat progress (rewrite ?E; run_step);
      cbn [fst snd nth reply_int existsb is_error orb].
    + by rewrite Hemp, map_size_empty.
    + done.
  - repeat progress (rewrite ?E; run_step).
    cbn [fst snd nth reply_int existsb is_error orb].
    by rewrite map_size_empty.
Qed.

(** X8: A sliding-window check on the server counts the members of the set
    that are inside the window, adds the cost and compares with the burst
    ceiling, the product of the quota and the multiplier as a double,
    truncated; [remaining] is computed from the plain quota. The quota and
    the product are within the range of doubles. *)
Theorem sliding_window_counts_members s env identifier limit cost db :
  server_up env = true →
  burst_in_double_range s limit →
  zset_or_absent (live (clock env) db) (sliding_key identifier) →
  let n := Z.of_nat (size (window_members env limit db identifier)) in
  let exceeded := bool_decide (n + cost > max_requests s limit) in
  (_sliding_window_redis s env identifier limit cost (clock env) db).1
  = Return (RateInfo.mk exceeded (requests limit)
              (0 `max` (requests limit - (n + cost)))
              (PyInt (clock env + window limit))
              (if exceeded then window limit else 0)
              (strategy_value (strategy limit))).
Proof. intros Hup _. by apply sliding_check_result. Qed.

Lemma sliding_window_counts_members_witness :
  let limit := mkRateLimit 5 60 SLIDING_WINDOW in
  let s := RateLimiter_init "redis://localhost:6379" (mkRateLimit 100 60 SLIDING_WINDOW)
             true (binary64 (12 # 10)) in
  let db := (_sliding_window_redis s (remote 0) "user_1" limit 1 0 ∅).2 in
  max_requests s limit = 6
  ∧ (_sliding_window_redis s (remote 1) "user_1" limit 5 1 db).1
    = Return (RateInfo.mk false 5 0 (PyInt 61) 0 "sliding_window").
Proof.
  intros limit s db. split; [by vm_compute|].
  assert (burst_in_double_range s limit) as Hr.
  { intros _. split; by vm_compute. }
  pose proof (sliding_window_counts_members s (remote 1) "user_1" limit 5 db
                eq_refl Hr ltac:(vm_compute; exact I)) as H.
  vm_compute in H |- *. exact H.
Defined.

Lemma get_redis_max_requests env s limit :
  max_requests (_get_redis env s).2 limit = max_requests s limit.
Proof. unfold _get_redis. by repeat case_match. Qed.

Lemma peek_remote_count env w identifier limit st :
  (_get_redis env (self w)).1 = true →
  (get_rate_limit_info env w identifier limit).1 = Return st →
  server_up env = true
  ∧ zset_or_absent (live (clock env) (server w)) (sliding_key identifier)
  ∧ StatusInfo.current_requests st
    = Z.of_nat (size (window_members env (default (default_limit (self w)) limit)
                        (server w) identifier)).
Proof.
  intros Hc. unfold get_rate_limit_info.
  destruct (_get_redis env (self w)) as [c s1]. simpl in Hc. subst c.
  destruct (server_up env) eqn:Hup.
  2:{ by rewrite pipeline_execute_down. }
  rewrite pipeline_execute_up by done.
  unfold window_members, zset_or_absent. unfold run_commands, exec.
  set (key := sliding_key identifier) in *.
  destruct (live (clock env) (server w) !! key) as [[[zs|m|tk lr] ex]|] eqn:E;
    repeat progress (rewrite ?E; run_step); try done.
  - destruct (decide (filter _ zs = ∅)) as [Hemp|Hne];
      repeat progress (rewrite ?E; run_step);
      cbn [fst snd nth reply_int existsb is_error orb];
      intros [= <-]; cbn [StatusInfo.current_requests]; [|done].
    by rewrite Hemp, map_size_empty.
  - cbn [fst snd nth reply_int existsb is_error orb].
    intros [= <-]. by rewrite map_size_empty.
Qed.

(** X9: The count a peek reports decides the sliding-window check that
    follows it in the same second: the check is denied exactly when the
    count plus the cost is above the burst ceiling (the quota and the
    ceiling being within the range of doubles). *)
Theorem peek_predicts_sliding_check env w identifier limit cost st :
  let lim := default (default_limit (self w)) limit in
  strategy lim = SLIDING_WINDOW →
  burst_in_double_range (self w) lim →
  (_get_redis env (self w)).1 = true →
  (get_rate_limit_info env w identifier limit).1 = Return st →
  let w1 := (get_rate_limit_info env w identifier limit).2 in
  let r := (check_rate_limit env w1 identifier limit cost).1 in
  let n := StatusInfo.current_requests st in
  if bool_decide (n + cost > max_requests (self w) lim)
  then denied_with (window lim) r
  else allowed_with (0 `max` (requests lim - (n + cost))) r.
Proof.
  intros lim Hs _ Hc Hst w1 r n. subst r w1.
  rewrite <- (check_same_view env identifier limit cost w)
    by (apply peek_same_view; [done|done|lia]).
  destruct (peek_remote_count _ _ _ _ _ Hc Hst) as (Hup & Hz & Hn).
  fold lim in Hn. fold n in Hn.
  rewrite check_remote by done. cbn [fst]. fold lim.
  unfold _check_redis_rate_limit. rewrite Hs.
  rewrite sliding_check_result by done.
  rewrite get_redis_max_requests, <- Hn.
  cbn [raise_if_exceeded RateInfo.exceeded RateInfo.retry_after].
  destruct (bool_decide (n + cost > max_requests (self w) lim)).
  - by do 3 eexists.
  - by eexists.
Qed.

Lemma peek_predicts_sliding_check_witness :
  let limit := Some (mkRateLimit 1 60 SLIDING_WINDOW) in
  let w := (check_rate_limit (remote 0) fresh_world "user_1" limit 1).2 in
  let w1 := (get_rate_limit_info (remote 5) w "user_1" limit).2 in
  denied_with 60 (check_rate_limit (remote 5) w1 "user_1" limit 1).1.
Proof.
  intros limit w w1.
  apply (peek_predicts_sliding_check (remote 5) w "user_1" limit 1
           (StatusInfo.mk 1 0 65 1));
    [reflexivity|intros _; split; by vm_compute|reflexivity|reflexivity].
Defined.

(** ** Token bucket *)

Lemma py_int_inject (x : Q) (k : Z) : (x == inject_Z k)%Q → py_int x = k.
Proof.
  destruct x as [n d]. unfold Qeq, py_int. simpl. intros H.
  rewrite Z.mul_1_r in H. rewrite H. apply Z.quot_mul. lia.
Qed.

(** X10: A new bucket is full: the first token-bucket check of an identifier
    allows any cost up to the quota and reports the quota minus the cost.
    Quota, window and cost are below 2^52 in magnitude, where the doubles
    of the script hold them exactly. *)
Theorem token_bucket_starts_full env w identifier limit cost :
  let lim := default (default_limit (self w)) limit in
  strategy lim = TOKEN_BUCKET →
  0 < requests lim < 2 ^ 52 →
  0 < window lim < 2 ^ 52 →
  - 2 ^ 52 < cost ≤ requests lim →
  (_get_redis env (self w)).1 = true →
  server_up env = true →
  live (clock env) (server w) !! bucket_key identifier = None →
  allowed_with (requests lim - cost)
    (check_rate_limit env w identifier limit cost).1.
Proof.
  intros lim Hs [Hr _] [Hw _] [_ Hcost] Hc Hup E.
  pose proof (refill_rate_pos _ _ Hr Hw) as Hrate.
  rewrite check_remote by done. cbn [fst]. fold lim.
  unfold _check_redis_rate_limit. rewrite Hs.
  unfold _token_bucket_redis, py_truediv.
  rewrite (Qeq_bool_inject_pos _ Hw), (Qeq_bool_pos _ Hrate).
  unfold execute_command. rewrite Hup. unfold exec, token_bucket_script.
  rewrite E. cbn [from_option fst snd].
  set (rate := (inject_Z (requests lim) / inject_Z (window lim))%Q) in *.
  assert (Qmin (inject_Z (requests lim))
            (inject_Z (requests lim) + inject_Z (clock env - clock env) * rate)
          == inject_Z (requests lim))%Q as Hfull.
  { apply Q.min_l. rewrite Z.sub_diag.
    change (inject_Z 0) with 0%Q. rewrite Qmult_0_l, Qplus_0_r. apply Qle_refl. }
  assert (∀ t : Q, (t == inject_Z (requests lim))%Q →
     Qle_bool (inject_Z cost) t = true
     ∧ py_int (t - inject_Z cost) = requests lim - cost) as Hcons.
  { intros t Ht. split.
    - apply Qle_bool_iff. rewrite Ht. rewrite <- Zle_Qle. lia.
    - apply py_int_inject. rewrite Ht. unfold Zminus.
      rewrite inject_Z_plus, inject_Z_opp. reflexivity. }
  destruct (Hcons _ Hfull) as [H1 H2].
  rewrite H1. cbn. rewrite H2. by eexists.
Qed.

Lemma token_bucket_starts_full_witness :
  allowed_with 7
    (check_rate_limit (remote 0) fresh_world "user_1"
       (Some (mkRateLimit 10 10 TOKEN_BUCKET)) 3).1.
Proof.
  apply (token_bucket_starts_full (remote 0) fresh_world "user_1"
           (Some (mkRateLimit 10 10 TOKEN_BUCKET)) 3);
    [reflexivity|simpl; lia|simpl; lia|simpl; lia|reflexivity|reflexivity
    |reflexivity].
Defined.

(** ** Reset, then check *)

Lemma check_redis_down s1 s2 env identifier limit cost db1 db2 :
  server_up env = false →
  (_check_redis_rate_limit s1 env identifier limit cost db1).1
  = (_check_redis_rate_limit s2 env identifier limit cost db2).1.
Proof.
  intros Hup.
  unfold _check_redis_rate_limit, _sliding_window_redis, _fixed_window_redis,
    _token_bucket_redis, execute_command.
  rewrite Hup. destruct (strategy limit).
  - destruct (py_floordiv _ _); [|done]. by rewrite !pipeline_execute_down.
  - by rewrite !pipeline_execute_down.
  - by destruct (py_truediv _ _).
Qed.

Lemma string_app_empty_r (a : string) : a +:+ EmptyString = a.
Proof.
  induction a as [|x a IH]; [done|].
  change (String x (a +:+ EmptyString) = String x a). by rewrite IH.
Qed.

Lemma get_redis_enable_burst env s :
  enable_burst (_get_redis env s).2 = enable_burst s.
Proof. unfold _get_redis. by repeat case_match. Qed.

Lemma get_redis_burst_multiplier env s :
  burst_multiplier (_get_redis env s).2 = burst_multiplier s.
Proof. unfold _get_redis. by repeat case_match. Qed.

Lemma strategy_key_matches st a k :
  glob_plain a = true → strategy_key st a k →
  glob_match ("rate_limit:*:" +:+ a +:+ "*") k = true.
Proof.
  intros Ha. destruct st; cbn.
  - intros [ws ->].
    apply (reset_pattern_matches a "fixed" (":" +:+ pretty ws) Ha).
  - intros ->.
    pose proof (reset_pattern_matches a "sliding" EmptyString Ha) as H.
    by rewrite string_app_empty_r in H.
  - intros ->.
    pose proof (reset_pattern_matches a "bucket" EmptyString Ha) as H.
    by rewrite string_app_empty_r in H.
Qed.

Lemma memory_check_lookup s1 s2 env identifier limit cost :
  _memory_store s1 !! identifier = None →
  _memory_store s2 !! identifier = None →
  (_check_memory_rate_limit s1 env identifier limit cost).1
  = (_check_memory_rate_limit s2 env identifier limit cost).1.
Proof.
  intros H1 H2. unfold _check_memory_rate_limit. cbn [fst].
  assert (∀ s, _memory_store s !! identifier = None →
            _memory_store (if bool_decide (Z.of_nat (size (_memory_store s)) > 1000)
                           then _cleanup_memory_store s (clock env) else s)
            !! identifier = None) as Hn.
  { intros s Hs. destruct (bool_decide _); [|done].
    unfold _cleanup_memory_store. destruct s; cbn in *.
    apply map_lookup_filter_None. by left. }
  by rewrite (Hn s1 H1), (Hn s2 H2).
Qed.

(** X11: After a reset of an identifier without pattern characters, the next
    check of that identifier in the same second decides as a limiter with
    the same settings would on an empty server with an empty fallback
    store. *)
Theorem reset_then_check_is_fresh env w a limit cost :
  glob_plain a = true →
  (check_rate_limit env (reset_rate_limit env w a).2 a limit cost).1
  = (check_rate_limit env (mkW (set_memory_store (self w) ∅) ∅) a limit cost).1.
Proof.
  intros Ha.
  destruct ((_get_redis env (self w)).1) eqn:Hc.
  - assert (self (reset_rate_limit env w a).2 = (_get_redis env (self w)).2) as Hs.
    { unfold reset_rate_limit. destruct (_get_redis env (self w)) as [c s1].
      simpl in Hc. subst c. unfold redis_keys, redis_delete.
      by repeat case_match. }
    assert ((_get_redis env (self (reset_rate_limit env w a).2)).1 = true) as Hc1.
    { rewrite Hs. by rewrite get_redis_again. }
    assert ((_get_redis env (set_memory_store (self w) ∅)).1 = true) as Hc2.
    { revert Hc. unfold _get_redis. destruct (self w). cbn. by repeat case_match. }
    rewrite !check_remote by done. cbn [fst self server].
    assert (default_limit (self (reset_rate_limit env w a).2) = default_limit (self w))
      as -> by (rewrite Hs; apply get_redis_default_limit).
    assert (default_limit (set_memory_store (self w) ∅) = default_limit (self w))
      as -> by (by destruct (self w)).
    f_equal.
    rewrite Hs.
    assert (enable_burst (_get_redis env (_get_redis env (self w)).2).2
            = enable_burst (_get_redis env (set_memory_store (self w) ∅)).2) as Hb.
    { rewrite !get_redis_enable_burst. by destruct (self w). }
    assert (burst_multiplier (_get_redis env (_get_redis env (self w)).2).2
            = burst_multiplier (_get_redis env (set_memory_store (self w) ∅)).2) as Hm.
    { rewrite !get_redis_burst_multiplier. by destruct (self w). }
    destruct (server_up env) eqn:Hup.
    + apply check_redis_local; [done..|]. intros k Hk.
      rewrite !lookup_live, lookup_empty, reset_remote_lookup by done.
      by rewrite (strategy_key_matches _ a k Ha Hk).
    + by apply check_redis_down.
  - assert ((_get_redis env (self (reset_rate_limit env w a).2)).1 = false
            ∧ _memory_store (self (reset_rate_limit env w a).2) !! a = None
            ∧ default_limit (self (reset_rate_limit env w a).2)
              = default_limit (self w)) as (Hc1 & Hl1 & Hd1).
    { unfold reset_rate_limit. revert Hc. unfold _get_redis.
      destruct (self w); cbn.
      repeat case_match; intros; simplify_eq/=; by rewrite ?lookup_delete_eq. }
    assert ((_get_redis env (set_memory_store (self w) ∅)).1 = false) as Hc2.
    { revert Hc. unfold _get_redis. destruct (self w). cbn. by repeat case_match. }
    rewrite !check_fallback by done. cbn [fst self server].
    rewrite Hd1.
    assert (default_limit (set_memory_store (self w) ∅) = default_limit (self w))
      as -> by (by destruct (self w)).
    do 2 f_equal. apply memory_check_lookup.
    + by rewrite get_redis_memory_store.
    + rewrite get_redis_memory_store. by destruct (self w).
Qed.

Lemma reset_then_check_is_fresh_witness :
  let limit := Some (mkRateLimit 1 60 FIXED_WINDOW) in
  let w := (check_rate_limit (remote 0) fresh_world "user_1" limit 1).2 in
  (check_rate_limit (remote 0) (reset_rate_limit (remote 0) w "user_1").2
     "user_1" limit 1).1
  = (check_rate_limit (remote 0) (mkW (set_memory_store (self w) ∅) ∅)
       "user_1" limit 1).1.
Proof.
  intros limit w.
  apply (reset_then_check_is_fresh (remote 0) w "user_1" limit 1). reflexivity.
Defined.

(** ** Sliding-window checks in the same second *)

Lemma live_insert_live now (db : gmap string entry) k e :
  alive now e = Some e →
  live now (<[k := e]> (live now db)) = <[k := e]> (live now db).
Proof.
  intros He. apply map_eq. intros j. rewrite lookup_live.
  destruct (decide (j = k)) as [->|Hne].
  - by rewrite !lookup_insert_eq.
  - rewrite !lookup_insert_ne by done. rewrite <- lookup_live.
    apply live_live_lookup.
Qed.

(** The server after the sliding-window pipeline, when the key is free or
    holds a sorted set. *)
Lemma sliding_pipeline_db now key member w (db : gmap string entry) :
  - 60 < w →
  zset_or_absent db key →
  ∃ zs,
    (run_commands now
       [ZREMRANGEBYSCORE key 0 (now - w); ZCARD key; ZADD key member now;
        EXPIRE key (w + 60)] db).2
    = <[key := Entry (VZSet (<[member := now]> zs)) (Some (now + (w + 60)))]> db
    ∧ map_Forall (λ k x, ¬ in_range 0 (now - w) (k, x)) zs.
Proof.
  unfold zset_or_absent, run_commands, exec. intros Hw Hz.
  destruct (db !! key) as [[[zs|m|tk lr] ex]|] eqn:E; try done.
  - exists (filter (λ kv, ¬ in_range 0 (now - w) kv) zs). split.
    2:{ intros k x Hk. by apply map_lookup_filter_Some in Hk as [_ ?]. }
    destruct (decide (filter _ zs = ∅)) as [Hemp|Hne];
      repeat progress (rewrite ?E; run_step); cbn [snd].
    + rewrite Hemp. by rewrite insert_delete_eq.
    + done.
  - exists ∅. split; [|apply map_Forall_empty].
    repeat progress (rewrite ?E; run_step). done.
Qed.

Lemma sliding_second_pass now key member w (db : gmap string entry) zs e :
  0 < w →
  map_Forall (λ k x, ¬ in_range 0 (now - w) (k, x)) zs →
  e = Entry (VZSet (<[member := now]> zs)) (Some (now + (w + 60))) →
  db !! key = Some e →
  (run_commands now
     [ZREMRANGEBYSCORE key 0 (now - w); ZCARD key; ZADD key member now;
      EXPIRE key (w + 60)] db).2 = db.
Proof.
  intros Hw Hzs -> E. unfold run_commands, exec. rewrite E.
  assert (filter (λ kv, ¬ in_range 0 (now - w) kv) (<[member := now]> zs)
          = <[member := now]> zs) as Hf.
  { apply map_filter_id. intros k x.
    destruct (decide (k = member)) as [->|Hne].
    - rewrite lookup_insert_eq. intros [= <-]. unfold in_range. cbn. lia.
    - rewrite lookup_insert_ne by done. apply Hzs. }
  rewrite Hf. rewrite decide_False by apply insert_non_empty.
  repeat progress run_step. cbn [snd].
  by apply insert_id.
Qed.

Lemma sliding_check_db s env identifier limit cost db :
  server_up env = true →
  - 60 < window limit →
  zset_or_absent (live (clock env) db) (sliding_key identifier) →
  ∃ zs,
    (_sliding_window_redis s env identifier limit cost (clock env) db).2
    = <[sliding_key identifier :=
          Entry (VZSet (<[pretty (clock env) +:+ ":" +:+ pretty cost := clock env]> zs))
            (Some (clock env + (window limit + 60)))]> (live (clock env) db)
    ∧ map_Forall (λ k x, ¬ in_range 0 (clock env - window limit) (k, x)) zs.
Proof.
  intros Hup Hw Hz. unfold _sliding_window_redis.
  rewrite pipeline_execute_up by done.
  destruct (sliding_pipeline_db (clock env) (sliding_key identifier)
       (pretty (clock env) +:+ ":" +:+ pretty cost) (window limit) _ Hw Hz)
    as (zs & E & Hzs).
  exists zs. split; [|done]. rewrite <- E. by destruct (existsb _ _).
Qed.

Lemma sliding_check_twice s s' env identifier limit cost db :
  server_up env = true →
  0 < window limit →
  zset_or_absent (live (clock env) db) (sliding_key identifier) →
  let db1 := (_sliding_window_redis s env identifier limit cost (clock env) db).2 in
  (_sliding_window_redis s' env identifier limit cost (clock env) db1).2 = db1.
Proof.
  intros Hup Hw Hz db1. subst db1.
  destruct (sliding_check_db s env identifier limit cost db Hup ltac:(lia) Hz)
    as (zs & -> & Hzs).
  unfold _sliding_window_redis. rewrite pipeline_execute_up by done.
  rewrite live_insert_live by (unfold alive; cbn; by rewrite decide_True by lia).
  rewrite (sliding_second_pass _ _ _ _ _ zs _ Hw Hzs eq_refl)
    by apply lookup_insert_eq.
  by destruct (existsb _ _).
Qed.

(** X12: Sliding-window checks of one identifier with one cost inside one
    second share one member of the sorted set: the second check leaves the
    limiter and the server exactly as the first did, so every further
    check in that second finds the same count. *)
Theorem sliding_same_second_checks_share_a_member env w identifier limit cost :
  let lim := default (default_limit (self w)) limit in
  strategy lim = SLIDING_WINDOW →
  0 < window lim →
  (_get_redis env (self w)).1 = true →
  server_up env = true →
  zset_or_absent (live (clock env) (server w)) (sliding_key identifier) →
  let w1 := (check_rate_limit env w identifier limit cost).2 in
  (check_rate_limit env w1 identifier limit cost).2 = w1.
Proof.
  intros lim Hs Hw Hc Hup Hz w1. subst w1.
  rewrite (check_remote env w) by done. cbn [snd]. fold lim.
  set (s1 := (_get_redis env (self w)).2).
  assert ((_get_redis env s1).1 = true) as Hc1
    by (subst s1; by rewrite get_redis_again).
  assert ((_get_redis env s1).2 = s1) as Hs1.
  { subst s1. revert Hc. unfold _get_redis. destruct (self w). cbn.
    repeat case_match; try done; cbn in *; congruence. }
  rewrite check_remote by done. cbn [snd self server].
  rewrite Hs1.
  assert (default_limit s1 = default_limit (self w)) as ->
    by apply get_redis_default_limit.
  fold lim. f_equal.
  unfold _check_redis_rate_limit. rewrite Hs.
  by apply sliding_check_twice.
Qed.

Lemma sliding_same_second_checks_share_a_member_witness :
  let w1 := (check_rate_limit (remote 0) fresh_world "user_1" None 1).2 in
  (check_rate_limit (remote 0) w1 "user_1" None 1).2 = w1.
Proof.
  apply (sliding_same_second_checks_share_a_member (remote 0) fresh_world
           "user_1" None 1);
    [reflexivity|simpl; lia|reflexivity|reflexivity|exact I].
Defined.

(** ** The exception object *)

(** X13: A denial under a positive quota and window reaches the caller as a 429
    whose [Retry-After] header is the positive number of seconds of the
    decision, with the quota and the window in its details. *)
Theorem denial_carries_retry_after_header env w identifier limit cost e :
  let lim := default (default_limit (self w)) limit in
  0 < requests lim → 0 < window lim →
  raised (check_rate_limit env w identifier limit cost).1 = Some e →
  APIException.status_code e = 429
  ∧ APIException.error_code e = "RATE_LIMIT_EXCEEDED"
  ∧ ∃ retry_after,
      1 ≤ retry_after
      ∧ APIException.headers e = {["Retry-After" := pretty retry_after]}
      ∧ APIException.details e
        = <["retry_after_seconds" := retry_after]>
            (<["window_seconds" := window lim]> {["limit" := requests lim]}).
Proof.
  intros lim Hr Hw He.
  destruct (check_rate_limit env w identifier limit cost).1 as [info|ex] eqn:E;
    [done|].
  destruct ex as [msg ra l wd| | |]; try done.
  injection He as <-.
  assert (denied_with ra (check_rate_limit env w identifier limit cost).1) as Hd
    by (rewrite E; by do 3 eexists).
  destruct (denied_retry_after _ _ _ _ _ _ Hr Hw Hd) as [Hra _].
  assert (l = requests lim ∧ wd = window lim) as [-> ->].
  { destruct ((_get_redis env (self w)).1) eqn:Hc.
    - rewrite check_remote in E by done. cbn [fst] in E. fold lim in E.
      destruct (_check_redis_rate_limit _ _ _ _ _ _) as [[i|e0] d] eqn:E0;
        cbn [fst raise_if_exceeded] in E.
      + destruct (RateInfo.exceeded i); by simplify_eq.
      + apply check_redis_raises in E0. destruct E0 as [?|[?|?]]; simplify_eq.
    - rewrite check_fallback in E by done. cbn [fst raise_if_exceeded] in E.
      fold lim in E. destruct (RateInfo.exceeded _); by simplify_eq. }
  unfold RateLimitExceededException_init, truthy.
  rewrite !decide_False by lia. cbn.
  repeat split. exists ra. by repeat split.
Qed.

Lemma denial_carries_retry_after_header_witness :
  let e := RateLimitExceededException_init "Rate limit exceeded for user_1"
             (Some 60) (Some 1) (Some 60) None in
  APIException.status_code e = 429
  ∧ APIException.error_code e = "RATE_LIMIT_EXCEEDED"
  ∧ ∃ retry_after,
      1 ≤ retry_after
      ∧ APIException.headers e = {["Retry-After" := pretty retry_after]}
      ∧ APIException.details e
        = <["retry_after_seconds" := retry_after]>
            (<["window_seconds" := 60]> {["limit" := 1]}).
Proof.
  intros e.
  apply (denial_carries_retry_after_header (fallback 0) fresh_world "user_1"
           (Some (mkRateLimit 1 60 SLIDING_WINDOW)) 2 e);
    [simpl; lia|simpl; lia|reflexivity].
Defined.

(** X14: With a quota of zero the denial names no limit: [if limit:] takes 0
    for a missing value. *)
Theorem zero_quota_denial_omits_limit env w identifier limit cost e :
  requests (default (default_limit (self w)) limit) = 0 →
  raised (check_rate_limit env w identifier limit cost).1 = Some e →
  APIException.details e !! "limit" = None.
Proof.
  intros Hr He.
  destruct (check_rate_limit env w identifier limit cost).1 as [info|ex] eqn:E;
    [done|].
  destruct ex as [msg ra l wd| | |]; try done.
  injection He as <-.
  assert (l = 0) as ->.
  { rewrite <- Hr. destruct ((_get_redis env (self w)).1) eqn:Hc.
    - rewrite check_remote in E by done. cbn [fst] in E.
      destruct (_check_redis_rate_limit _ _ _ _ _ _) as [[i|e0] d] eqn:E0;
        cbn [fst raise_if_exceeded] in E.
      + destruct (RateInfo.exceeded i); by simplify_eq.
      + apply check_redis_raises in E0. destruct E0 as [?|[?|?]]; simplify_eq.
    - rewrite check_fallback in E by done. cbn [fst raise_if_exceeded] in E.
      destruct (RateInfo.exceeded _); by simplify_eq. }
  unfold RateLimitExceededException_init, truthy.
  destruct (decide (0 = 0)); [|done].
  destruct (decide (wd = 0)), (decide (ra = 0)); cbn;
    by rewrite ?lookup_insert_ne, ?lookup_empty by done.
Qed.

Lemma zero_quota_denial_omits_limit_witness :
  let e := RateLimitExceededException_init "Rate limit exceeded for user_1"
             (Some 60) (Some 0) (Some 60) None in
  APIException.details e !! "limit" = None.
Proof.
  intros e.
  apply (zero_quota_denial_omits_limit (fallback 0) fresh_world "user_1"
           (Some (mkRateLimit 0 60 SLIDING_WINDOW)) 1 e); reflexivity.
Defined.

(** ** The limit of a path *)

Lemma prefix_cons_inv c s1 s2 :
  String.prefix (String c s1) s2 = true →
  ∃ s3, s2 = String c s3 ∧ String.prefix s1 s3 = true.
Proof.
  destruct s2 as [|c' s3]; cbn [String.prefix]; [done|].
  destruct (ascii_dec c c') as [<-|]; [|done]. by exists s3.
Qed.

(** X15: Every path that starts with [/posts] gets the limit of post creation,
    whatever the method: the rule for comments nested under a post is never
    reached for such a path. *)
Theorem posts_prefix_decides_first path method :
  String.prefix "/posts" path = true →
  get_rate_limit_for_path path method = Some (mkRateLimit 10 3600 SLIDING_WINDOW).
Proof.
  intros H. pose proof H as H0.
  do 6 (apply prefix_cons_inv in H as (? & -> & H)).
  unfold get_rate_limit_for_path, RATE_LIMITS.
  cbv -[String.prefix]. cbv -[String.prefix] in H0.
  assert (∀ s, String.prefix "/auth/login" ("/posts" +:+ s) = false) as E1 by done.
  assert (∀ s, String.prefix "/auth/register" ("/posts" +:+ s) = false) as E2 by done.
  assert (∀ s, String.prefix "/auth/password-reset" ("/posts" +:+ s) = false)
    as E3 by done.
  cbv -[String.prefix] in E1, E2, E3.
  by rewrite E1, E2, E3, H0.
Qed.

Lemma posts_prefix_decides_first_witness :
  get_rate_limit_for_path "/posts/7/comments" "POST"
  = Some (mkRateLimit 10 3600 SLIDING_WINDOW).
Proof. apply (posts_prefix_decides_first "/posts/7/comments" "POST"). reflexivity. Defined.

(** ** One record for every sliding-window limit *)

(** X16: The sorted set belongs to the identifier, not to the limit: the
    member a sliding-window check adds under one limit is among the members
    a later check of the same identifier counts under any other
    sliding-window limit whose window still covers it, and that check
    reports what is left of its own quota after all of them. *)
Theorem sliding_limits_share_one_record s s' env1 env2 identifier limit1 limit2
    cost1 cost2 db :
  server_up env1 = true → server_up env2 = true →
  burst_in_double_range s' limit2 →
  zset_or_absent (live (clock env1) db) (sliding_key identifier) →
  clock env1 ≤ clock env2 →
  clock env2 < clock env1 + window limit2 →
  clock env2 < clock env1 + window limit1 + 60 →
  let db1 := (_sliding_window_redis s env1 identifier limit1 cost1 (clock env1) db).2 in
  let members := window_members env2 limit2 db1 identifier in
  members !! (pretty (clock env1) +:+ ":" +:+ pretty cost1) = Some (clock env1)
  ∧ ∃ info,
      (_sliding_window_redis s' env2 identifier limit2 cost2 (clock env2) db1).1
      = Return info
      ∧ RateInfo.remaining info
        = 0 `max` (requests limit2 - (Z.of_nat (size members) + cost2)).
Proof.
  intros Hup1 Hup2 _ Hz Hle Hw2 Hw1 db1 members. subst members db1.
  destruct (sliding_check_db s env1 identifier limit1 cost1 db Hup1 ltac:(lia) Hz)
    as (zs & -> & _).
  set (member := pretty (clock env1) +:+ ":" +:+ pretty cost1).
  set (e := Entry (VZSet (<[member := clock env1]> zs))
              (Some (clock env1 + (window limit1 + 60)))).
  assert (live (clock env2) (<[sliding_key identifier := e]> (live (clock env1) db))
          !! sliding_key identifier = Some e) as E.
  { rewrite lookup_live, lookup_insert_eq. cbn. unfold alive. cbn.
    by rewrite decide_True by lia. }
  split.
  - unfold window_members. rewrite E. subst e. lazy beta iota.
    apply map_lookup_filter_Some. split; [apply lookup_insert_eq|].
    unfold in_range. cbn. lia.
  - rewrite sliding_check_result; [|done|].
    2:{ unfold zset_or_absent. by rewrite E. }
    by eexists.
Qed.

Lemma sliding_limits_share_one_record_witness :
  let s := RateLimiter_default in
  let db1 := (_sliding_window_redis s (remote 0) "ip_10.0.0.1"
                (mkRateLimit 100 60 SLIDING_WINDOW) 1 0 ∅).2 in
  let limit2 := mkRateLimit 5 300 SLIDING_WINDOW in
  window_members (remote 100) limit2 db1 "ip_10.0.0.1" !! "0:1" = Some 0
  ∧ ∃ info,
      (_sliding_window_redis s (remote 100) "ip_10.0.0.1" limit2 1 100 db1).1
      = Return info
      ∧ RateInfo.remaining info = 3.
Proof.
  intros s db1 limit2.
  assert (burst_in_double_range s limit2) as Hr.
  { intros _. split; by vm_compute. }
  destruct (sliding_limits_share_one_record s s (remote 0) (remote 100) "ip_10.0.0.1"
              (mkRateLimit 100 60 SLIDING_WINDOW) limit2 1 1 ∅
              eq_refl eq_refl Hr ltac:(vm_compute; exact I) ltac:(simpl; lia) ltac:(simpl; lia)
              ltac:(simpl; lia)) as [Hm (info & E & Hrem)].
  split; [exact Hm|]. exists info. split; [exact E|].
  rewrite Hrem. by vm_compute.
Defined.

(** ** Window boundaries *)

Lemma fixed_check_local_key s1 s2 env identifier limit cost db1 db2 :
  (let k := fixed_key identifier (clock env `div` window limit * window limit) in
   live (clock env) db1 !! k = live (clock env) db2 !! k) →
  (_fixed_window_redis s1 env identifier limit cost (clock env) db1).1
  = (_fixed_window_redis s2 env identifier limit cost (clock env) db2).1.
Proof.
  intros H. unfold _fixed_window_redis, py_floordiv.
  destruct (decide (window limit = 0)); [done|].
  destruct (server_up env) eqn:Hup.
  2:{ by rewrite !pipeline_execute_down. }
  rewrite !pipeline_execute_up by done. cbn [fst snd].
  edestruct (run_commands_local (clock env)
               (fixed_key identifier (clock env `div` window limit * window limit)))
    as [E _]; [|apply H|rewrite E].
  { repeat constructor. }
  by destruct (existsb _ _).
Qed.

Lemma fixed_check_frame s env identifier limit cost db k :
  k ≠ fixed_key identifier (clock env `div` window limit * window limit) →
  live (clock env) (_fixed_window_redis s env identifier limit cost (clock env) db).2 !! k
  = live (clock env) db !! k.
Proof.
  intros Hk. unfold _fixed_window_redis, py_floordiv.
  destruct (decide (window limit = 0)); [done|].
  destruct (server_up env) eqn:Hup.
  - rewrite pipeline_execute_up by done. destruct (existsb _ _); cbn [snd];
      (rewrite lookup_live, run_commands_lookup_ne, <- lookup_live;
       [apply live_live_lookup|repeat constructor; simpl; congruence]).
  - by rewrite pipeline_execute_down.
Qed.

(** X17: Fixed-window counters restart at every multiple of the window: a check
    in one window does not count against a check in a later one, however
    close in time the two are. *)
Theorem fixed_window_restarts_at_boundary env_a env_b w identifier limit cost_a cost_b :
  strategy limit = FIXED_WINDOW →
  window limit ≠ 0 →
  redis_installed env_a = redis_installed env_b →
  from_url_ok env_a = from_url_ok env_b →
  clock env_a ≤ clock env_b →
  clock env_a `div` window limit ≠ clock env_b `div` window limit →
  (_get_redis env_b (self w)).1 = true →
  (check_rate_limit env_b
     (check_rate_limit env_a w identifier (Some limit) cost_a).2
     identifier (Some limit) cost_b).1
  = (check_rate_limit env_b w identifier (Some limit) cost_b).1.
Proof.
  intros Hs Hw Hi Hu Hle Hne Hcb.
  assert ((_get_redis env_a (self w)).1 = true) as Hca.
  { revert Hcb. unfold _get_redis. rewrite Hi, Hu. by repeat case_match. }
  rewrite (check_remote env_a) by done. cbn [snd].
  rewrite !(check_remote env_b); cbn [self server fst snd default from_option id].
  2: done.
  2:{ by rewrite get_redis_again. }
  f_equal. unfold _check_redis_rate_limit. rewrite Hs.
  apply fixed_check_local_key. intros k.
  rewrite !(live_later (clock env_a) (clock env_b)) by done.
  f_equal. apply fixed_check_frame. subst k.
  intros [_ E]%fixed_key_inj. apply Hne.
  by apply Z.mul_cancel_r in E.
Qed.

Lemma fixed_window_restarts_at_boundary_witness :
  let limit := mkRateLimit 1 60 FIXED_WINDOW in
  (check_rate_limit (remote 60)
     (check_rate_limit (remote 59) fresh_world "user_1" (Some limit) 1).2
     "user_1" (Some limit) 1).1
  = (check_rate_limit (remote 60) fresh_world "user_1" (Some limit) 1).1.
Proof.
  apply (fixed_window_restarts_at_boundary (remote 59) (remote 60) fresh_world
           "user_1" (mkRateLimit 1 60 FIXED_WINDOW) 1 1);
    [reflexivity|simpl; lia|reflexivity|reflexivity|simpl; lia|discriminate|reflexivity].
Defined.



(** X19: The server records one member per check, whatever the cost: after a
    first check of cost [cost1] on a free key, the set a later check inside
    the window counts holds that one member, and the check reports the
    quota minus one and its own cost. *)
Theorem sliding_cost_counts_once s s' env1 env2 identifier limit cost1 cost2 db :
  server_up env1 = true → server_up env2 = true →
  burst_in_double_range s' limit →
  live (clock env1) db !! sliding_key identifier = None →
  clock env1 ≤ clock env2 →
  clock env2 < clock env1 + window limit →
  let db1 := (_sliding_window_redis s env1 identifier limit cost1 (clock env1) db).2 in
  window_members env2 limit db1 identifier
  = {[ pretty (clock env1) +:+ ":" +:+ pretty cost1 := clock env1 ]}
  ∧ ∃ info,
      (_sliding_window_redis s' env2 identifier limit cost2 (clock env2) db1).1
      = Return info
      ∧ RateInfo.remaining info = 0 `max` (requests limit - (1 + cost2)).
Proof.
  intros Hup1 Hup2 _ E Hle Hw db1. subst db1.
  set (member := pretty (clock env1) +:+ ":" +:+ pretty cost1).
  set (e := Entry (VZSet {[member := clock env1]})
              (Some (clock env1 + (window limit + 60)))).
  assert ((_sliding_window_redis s env1 identifier limit cost1 (clock env1) db).2
          = <[sliding_key identifier := e]> (live (clock env1) db)) as ->.
  { unfold _sliding_window_redis. rewrite pipeline_execute_up by done.
    unfold run_commands, exec. repeat progress (rewrite ?E; run_step).
    by destruct (existsb _ _). }
  assert (live (clock env2) (<[sliding_key identifier := e]> (live (clock env1) db))
          !! sliding_key identifier = Some e) as E2.
  { rewrite lookup_live, lookup_insert_eq. cbn. unfold alive. cbn.
    by rewrite decide_True by lia. }
  assert (window_members env2 limit
            (<[sliding_key identifier := e]> (live (clock env1) db)) identifier
          = {[member := clock env1]}) as Hm.
  { unfold window_members. rewrite E2. subst e. lazy beta iota.
    by rewrite map_filter_singleton_True by (unfold in_range; cbn; lia). }
  split; [exact Hm|].
  rewrite sliding_check_result; [|done|].
  2:{ unfold zset_or_absent. by rewrite E2. }
  eexists. split; [done|]. cbn [RateInfo.remaining].
  by rewrite Hm, map_size_singleton.
Qed.

Lemma sliding_cost_counts_once_witness :
  let s := RateLimiter_default in
  let limit := mkRateLimit 5 60 SLIDING_WINDOW in
  let db1 := (_sliding_window_redis s (remote 0) "user_1" limit 5 0 ∅).2 in
  window_members (remote 1) limit db1 "user_1" = {[ "0:5" := 0 ]}
  ∧ ∃ info,
      (_sliding_window_redis s (remote 1) "user_1" limit 1 1 db1).1 = Return info
      ∧ RateInfo.remaining info = 3.
Proof.
  intros s limit db1.
  assert (burst_in_double_range s limit) as Hr.
  { intros _. split; by vm_compute. }
  destruct (sliding_cost_counts_once s s (remote 0) (remote 1) "user_1" limit 5 1 ∅
              eq_refl eq_refl Hr ltac:(by vm_compute) ltac:(simpl; lia)
              ltac:(simpl; lia)) as [Hm (info & E & Hrem)].
  split; [exact Hm|]. exists info. split; [exact E|].
  rewrite Hrem. by vm_compute.
Defined.
